(** * The NEAR indexing engine: fetch scheduler, filter engine and worker

    A shallow embedding of the parts of the node package that decide which
    block heights are handed to the block dispatcher, how wire actions are
    decoded and filtered, and how a worker fetches and processes a block.

    JavaScript numbers that hold block heights, batch sizes and timestamps
    are integers of [Z]; the few places where the source can produce
    [-Infinity], [Infinity] or [NaN] are written out with [jsnum].  Arrays
    are lists, the worker's fetched-block object is a [gmap] keyed by
    height, and every method that mutates [this] threads a record of the
    object's fields. *)

From Stdlib Require Import ZArith List String Lia QArith Qround.
From Stdlib Require Import Sorting.Sorted Sorting.Permutation DecimalString.
From stdpp Require Import gmap strings.
Import ListNotations.

Set Warnings "-register-all".

Open Scope string_scope.
Open Scope list_scope.
Open Scope Z_scope.

(** ** JavaScript values used by the engine *)

Module Js.

(** A number as the scheduler sees it: an integer height, or one of the
    three special values [Math.max()], [Math.min()] and arithmetic on
    [undefined] produce. *)
Inductive jsnum : Type :=
  | NaN
  | NegInfinity
  | PosInfinity
  | Num (z : Z).

(** [a < b] on numbers; every comparison with [NaN] is false. *)
Definition lt (a b : jsnum) : bool :=
  match a, b with
  | NaN, _ | _, NaN => false
  | Num x, Num y => x <? y
  | NegInfinity, NegInfinity => false
  | NegInfinity, _ => true
  | _, PosInfinity => match a with PosInfinity => false | _ => true end
  | _, _ => false
  end.

(** [Math.max(...xs)] of an array of integers: [-Infinity] when empty. *)
Fixpoint Math_max (xs : list Z) : jsnum :=
  match xs with
  | [] => NegInfinity
  | x :: rest =>
      match Math_max rest with
      | Num m => Num (Z.max x m)
      | _ => Num x
      end
  end.

(** [Math.min(...xs)] where an element may be [undefined] (which converts
    to [NaN] and poisons the result): [Infinity] when empty. *)
Fixpoint Math_min (xs : list (option Z)) : jsnum :=
  match xs with
  | [] => PosInfinity
  | None :: _ => NaN
  | Some x :: rest =>
      match Math_min rest with
      | Num m => Num (Z.min x m)
      | PosInfinity => Num x
      | other => other
      end
  end.

(** [Math.round]: nearest integer, ties towards [+Infinity]. *)
Definition Math_round (q : Q) : Z := Qfloor (q + (1 # 2)).

(** The double nearest to a real number, as a rational: 53 significant
    bits, ties to the even significand, gradual underflow down to
    [2^-1074].  A fractional number such as a batch scale of [0.7] is held
    by the code as this double, not as the decimal fraction.  Magnitudes
    from [2^1024] on, where a double overflows to [Infinity], lie outside
    what a batch size or a scale can hold and are not cut off here. *)
Definition Number_value (q : Q) : Q :=
  let n := Qnum q in
  let d := Zpos (Qden q) in
  if n =? 0 then 0%Q
  else
    let a := Z.abs n in
    let e0 := Z.log2 a - Z.log2 d in
    let below :=
      if 0 <=? e0 then a <? d * 2 ^ e0 else a * 2 ^ (- e0) <? d in
    let e1 := if below then e0 - 1 else e0 in
    let e := Z.max (e1 - 52) (-1074) in
    let num := if 0 <=? e then a else a * 2 ^ (- e) in
    let den := if 0 <=? e then d * 2 ^ e else d in
    let quo := num / den in
    let twice := 2 * (num mod den) in
    let m :=
      if twice <? den then quo
      else if den <? twice then quo + 1
      else if Z.even quo then quo else quo + 1 in
    if 0 <=? e then inject_Z (Z.sgn n * m * 2 ^ e)
    else Qmake (Z.sgn n * m) (Z.to_pos (2 ^ (- e))).

(** [x * y] on two numbers: the double nearest to the product of the two
    doubles. *)
Definition Number_multiply (x y : Q) : Q :=
  Number_value (Number_value x * Number_value y).

(** [xs.slice(0, n)]: a negative [n] counts from the end of the array. *)
Definition slice0 {A : Type} (n : Z) (xs : list A) : list A :=
  if 0 <=? n then firstn (Z.to_nat n) xs
  else firstn (length xs - Z.to_nat (- n)) xs.

(** lodash [range(a, b)] for [a <= b], and the heights visited by
    [for (let i = a; i < b; i++)]: [a, a+1, ..., b-1]. *)
Definition range (a b : Z) : list Z :=
  map (fun k => a + Z.of_nat k) (seq 0 (Z.to_nat (b - a))).

(** lodash [without(xs, ...ys)]: the members of [xs] not among [ys]. *)
Definition without (xs ys : list Z) : list Z :=
  List.filter (fun x => negb (existsb (Z.eqb x) ys)) xs.

(** Insertion into an ascending array. *)
Fixpoint insert_asc (x : Z) (xs : list Z) : list Z :=
  match xs with
  | [] => [x]
  | y :: rest => if x <=? y then x :: xs else y :: insert_asc x rest
  end.

(** [xs.sort((a, b) => a - b)]: the ascending arrangement of [xs]; no
    element is dropped or merged with an equal one. *)
Fixpoint sort_asc (xs : list Z) : list Z :=
  match xs with
  | [] => []
  | x :: rest => insert_asc x (sort_asc rest)
  end.

(** A thrown [Error] with its message. *)
Inductive error : Type :=
  | Error (message : string).

(** The payload of a wire action is arbitrary JSON. *)
Inductive json : Type :=
  | JUndefined
  | JNull
  | JBool (b : bool)
  | JNum (z : Z)
  | JStr (s : string)
  | JArr (items : list json)
  | JObj (fields : list (string * json)).

(** Truthiness of an optional string property: [undefined] and the empty
    string are falsy. *)
Definition truthy_string (s : option string) : bool :=
  match s with
  | None => false
  | Some s => negb (String.eqb s "")
  end.

End Js.

Import Js.

(** ** Action decoding and the filter engine

    [wrapAction], [parseNearAction], [filterAction], [filterActions] and
    [filterBlockTimestamp]. *)

Module Near.

(** The wire shape of an action: [Record<string, any> | string].  The
    fields of a record are listed in the order [Object.keys] reports. *)
Inductive wire_action : Type :=
  | WString (s : string)
  | WRecord (fields : list (string * json)).

(** The closed set of action types [parseNearAction] accepts. *)
Definition action_types : list string :=
  [ "CreateAccount"; "DeployContract"; "FunctionCall"; "Transfer";
    "Stake"; "AddKey"; "DeleteKey"; "DeleteAccount" ].

(** The error [parseNearAction] throws on any other type string. *)
Definition InvalidAction : error :=
  Error "Invalid type string for NearAction".

Definition is_action_type (t : string) : bool :=
  existsb (String.eqb t) action_types.

(** [parseNearAction(type, action)]: the payload unchanged for a known
    type, a throw otherwise ([type] is [undefined] when the object had no
    key). *)
Definition parseNearAction (type : option string) (action : json)
  : error + json :=
  match type with
  | Some t => if is_action_type t then inr action else inl InvalidAction
  | None => inl InvalidAction
  end.

(** The decimal property name of a string index. *)
Definition index_key (i : nat) : string :=
  NilEmpty.string_of_uint (Nat.to_uint i).

(** [Object.keys(action)]: the field names of a record, the indices of a
    string. *)
Definition Object_keys (a : wire_action) : list string :=
  match a with
  | WString s => map index_key (seq 0 (String.length s))
  | WRecord fields => map fst fields
  end.

Fixpoint assoc (k : string) (fields : list (string * json)) : option json :=
  match fields with
  | [] => None
  | (k', v) :: rest => if String.eqb k k' then Some v else assoc k rest
  end.

(** [action[type]]: a missing property reads as [undefined]; indexing a
    string yields the one-character string at that position. *)
Definition get_prop (a : wire_action) (key : option string) : json :=
  match key with
  | None => JUndefined
  | Some k =>
      match a with
      | WRecord fields =>
          match assoc k fields with Some v => v | None => JUndefined end
      | WString s =>
          match List.find (fun i => String.eqb (index_key i) k)
                          (seq 0 (String.length s)) with
          | Some i =>
              match String.get i s with
              | Some c => JStr (String c EmptyString)
              | None => JUndefined
              end
          | None => JUndefined
          end
      end
  end.

Section Actions.

(** The wrapped transaction an action points back to. *)
Context {NearTransaction : Type}.

Record NearAction : Type := mkNearAction {
  id : nat;
  type : string;
  action : json;
  transaction : NearTransaction
}.

Definition is_CreateAccount_literal (a : wire_action) : bool :=
  match a with
  | WString s => String.eqb s "CreateAccount"
  | WRecord _ => false
  end.

Definition wrapAction (a : wire_action) (i : nat) (tx : NearTransaction)
  : error + NearAction :=
  if is_CreateAccount_literal a then
    match parseNearAction (Some "CreateAccount") (JObj []) with
    | inl e => inl e
    | inr actionValue => inr (mkNearAction i "CreateAccount" actionValue tx)
    end
  else
    let type := hd_error (Object_keys a) in
    match parseNearAction type (get_prop a type) with
    | inl e => inl e
    | inr actionValue =>
        match type with
        | Some t => inr (mkNearAction i t actionValue tx)
        | None => inl InvalidAction
        end
    end.

(** [NearActionFilter]: the [type] property may be missing at run time,
    which is what the guard in [filterAction] is for. *)
Record NearActionFilter : Type := mkActionFilter {
  filter_type : option string
}.

(** [filterAction(action, filter?)]. *)
Definition filterAction (a : NearAction) (filter : option NearActionFilter)
  : bool :=
  match filter with
  | None => true
  | Some f =>
      if truthy_string (filter_type f)
      then match filter_type f with
           | Some t => String.eqb (type a) t
           | None => false
           end
      else true
  end.

(** The argument [filter | filter[] | undefined]. *)
Inductive filter_arg : Type :=
  | FUndefined
  | FSingle (f : NearActionFilter)
  | FArray (fs : list NearActionFilter).

(** [filterOrFilters instanceof Array ? filterOrFilters : [filterOrFilters]]. *)
Definition filters_of (arg : filter_arg) : list NearActionFilter :=
  match arg with
  | FUndefined => []
  | FSingle f => [f]
  | FArray fs => fs
  end.

(** [filterActions(actions, filterOrFilters)]: [find] returns the first
    filter object that accepts the action, and an object is truthy. *)
Definition filterActions (actions : list NearAction) (arg : filter_arg)
  : list NearAction :=
  match arg with
  | FUndefined => actions
  | FArray [] => actions
  | _ =>
      let filters := filters_of arg in
      List.filter
        (fun a =>
           match List.find (fun f => filterAction a (Some f)) filters with
           | Some _ => true
           | None => false
           end)
        actions
  end.

(** A filter's [type] is unset when the property is missing or holds the
    empty string, the two values the guard [filter.type ? ... : true]
    treats as absent. *)
Definition type_unset (f : NearActionFilter) : Prop :=
  filter_type f = None \/ filter_type f = Some "".

(** A single filter passes an action: its [type] is unset or equals the
    action's type. *)
Definition filter_passes (a : NearAction) (f : NearActionFilter) : Prop :=
  type_unset f \/ filter_type f = Some (type a).

#[global] Instance filter_passes_dec a f : Decision (filter_passes a f).
Proof. unfold filter_passes, type_unset. solve_decision. Defined.

End Actions.

Arguments NearAction : clear implicits.
Arguments filter_arg : clear implicits.

(** *** Cron timestamp filter *)

Section Cron.

(** Modelled from the spec: the schedule is the Seeker of the third-party
    cron-converter package, which is not under src/.  It is a cursor over
    the firing times of the cron expression: [slot k] is the time (in
    milliseconds) of the [k]-th slot counted from the reference
    timestamp, [next()] moves the cursor one slot forward and returns
    the slot reached, [prev()] moves it one slot back. *)
Variable slot : Z -> Z.

Record Seeker : Type := mkSeeker { cursor : Z }.

Definition Seeker_next (s : Seeker) : Z * Seeker :=
  (slot (cursor s + 1), mkSeeker (cursor s + 1)).

Definition Seeker_prev (s : Seeker) : Z * Seeker :=
  (slot (cursor s - 1), mkSeeker (cursor s - 1)).

(** The getter installed by [generateTimestampReferenceForBlockFilters]:
    [get next() { return Date.parse(this.schedule.next().format()) }].
    Reading [next] moves the schedule. *)
Definition cronSchedule_next (s : Seeker) : Z * Seeker := Seeker_next s.

(** The two [logger.info] lines of the matching branch. *)
Inductive log_line : Type :=
  | AboutToBeIndexed (blockTimestamp : Z)
  | NextIndexedAt (next : Z).

(** [filterBlockTimestamp(block, filter)] on [block.header.timestamp] and
    the filter's schedule: the verdict, the schedule it leaves behind
    and the lines logged. *)
Definition filterBlockTimestamp (unixTimestamp : Z) (schedule : Seeker)
  : bool * Seeker * list log_line :=
  let '(next, s1) := cronSchedule_next schedule in
  if unixTimestamp >? next then
    let '(next', s2) := cronSchedule_next s1 in
    let '(_, s3) := Seeker_prev s2 in
    (true, s3, [AboutToBeIndexed unixTimestamp; NextIndexedAt next'])
  else
    let '(_, s2) := Seeker_prev s1 in
    (false, s2, []).

(** The slot the next evaluation of the filter will compare against. *)
Definition upcoming (s : Seeker) : Z := fst (cronSchedule_next s).

End Cron.

End Near.

(** ** The worker service: [fetchBlock] and [processBlock] *)

Module Worker.

(** [ProcessBlockResponse]; [null] is [None]. *)
Record ProcessBlockResponse : Type := mkResponse {
  blockHash : option string;
  dynamicDsCreated : bool;
  reindexBlockHeight : option Z
}.

Section WorkerService.

(** The block content held per height, the datasources handed to the
    indexer, and the errors raised by collaborators (the API service, the
    queue, the indexer manager, the project service). *)
Context {BlockContent DataSource ForeignError : Type}.

(** What [this.fetchedBlocks[height]] can hold: a key can be present with
    the value [undefined] or [null]. *)
Inductive fetched : Type :=
  | Undefined
  | Null
  | Content (block : BlockContent).

Record WorkerService : Type := mkWorker {
  fetchedBlocks : gmap Z fetched;
  _isIndexing : bool
}.

(** [this.fetchedBlocks[height]]: an absent key reads as [undefined]. *)
Definition read (w : WorkerService) (height : Z) : fetched :=
  match fetchedBlocks w !! height with
  | Some v => v
  | None => Undefined
  end.

(** Errors in flight inside the worker.  [BlockUnavailableError] is a
    class private to the module, so no collaborator can raise it. *)
Inductive exn : Type :=
  | BlockUnavailableError (height : Z)
  | NotFetched (height : Z)
  | Foreign (e : ForeignError).

Inductive completion (R : Type) : Type :=
  | Returned (r : R)
  | Thrown (e : exn).
Arguments Returned {R} r.
Arguments Thrown {R} e.

Inductive log_entry : Type :=
  | LogDebugMemoryLockWait
  | LogWarn (e : exn)
  | LogErrorFetch (e : exn) (height : Z)
  | LogErrorIndex (e : exn) (height : Z).

(** The collaborators of [fetchBlock]: whether [queue.put] rejects
    instead of running the task, whether the memory lock is held, and
    [apiService.fetchBlocks], which yields one entry per requested
    height ([null] for a block missing from the chain) or fails. *)
Record FetchEnv : Type := mkFetchEnv {
  queue_rejects : option ForeignError;
  memoryLock_isLocked : bool;
  fetchBlocks : list Z -> ForeignError + list (option BlockContent)
}.

(** The array pattern [const [block] = ...]. *)
Definition first_of (blocks : list (option BlockContent)) : fetched :=
  match blocks with
  | [] => Undefined
  | None :: _ => Null
  | Some b :: _ => Content b
  end.

Definition falsy (v : fetched) : bool :=
  match v with
  | Content _ => false
  | _ => true
  end.

(** The task handed to the queue. *)
Definition fetchTask (env : FetchEnv) (w : WorkerService) (height : Z)
  : WorkerService * completion unit * list log_entry :=
  if falsy (read w height) then
    let waited :=
      if memoryLock_isLocked env then [LogDebugMemoryLockWait] else [] in
    match fetchBlocks env [height] with
    | inl e => (w, Thrown (Foreign e), waited)
    | inr blocks =>
        (mkWorker (<[height := first_of blocks]> (fetchedBlocks w))
                  (_isIndexing w),
         Returned tt, waited)
    end
  else (w, Returned tt, []).

(** [fetchBlock(height)]: the response is always [undefined] ([None]). *)
Definition fetchBlock (env : FetchEnv) (w : WorkerService) (height : Z)
  : WorkerService * completion (option (Z * string)) * list log_entry :=
  let attempt :=
    match queue_rejects env with
    | Some e => (w, Thrown (Foreign e), [])
    | None => fetchTask env w height
    end in
  match attempt with
  | (w', Returned _, logs) => (w', Returned None, logs)
  | (w', Thrown e, logs) =>
      (w', Returned None, logs ++ [LogErrorFetch e height])
  end.

(** The collaborators of [processBlock]. *)
Record IndexEnv : Type := mkIndexEnv {
  getAllDataSources : Z -> ForeignError + list DataSource;
  indexBlock :
    BlockContent -> list DataSource -> ForeignError + ProcessBlockResponse
}.

Definition set_isIndexing (b : bool) (w : WorkerService) : WorkerService :=
  mkWorker (fetchedBlocks w) b.

(** The [try] block of [processBlock]. *)
Definition processBlock_try (env : IndexEnv) (w : WorkerService)
  (height : Z) : WorkerService * completion ProcessBlockResponse :=
  let w := set_isIndexing true w in
  match read w height with
  | Null => (w, Thrown (BlockUnavailableError height))
  | Undefined => (w, Thrown (NotFetched height))
  | Content block =>
      let w := mkWorker (delete height (fetchedBlocks w)) (_isIndexing w) in
      match getAllDataSources env height with
      | inl e => (w, Thrown (Foreign e))
      | inr dataSources =>
          match indexBlock env block dataSources with
          | inl e => (w, Thrown (Foreign e))
          | inr response => (w, Returned response)
          end
      end
  end.

(** [processBlock(height)] with its [catch] and [finally]. *)
Definition processBlock (env : IndexEnv) (w : WorkerService) (height : Z)
  : WorkerService * completion ProcessBlockResponse * list log_entry :=
  let '(w', c) := processBlock_try env w height in
  let '(c', logs) :=
    match c with
    | Returned r => (Returned r, [])
    | Thrown (BlockUnavailableError h) =>
        (Returned (mkResponse None false None),
         [LogWarn (BlockUnavailableError h)])
    | Thrown e => (Thrown e, [LogErrorIndex e height])
    end in
  (set_isIndexing false w', c', logs).

End WorkerService.

Arguments Returned {ForeignError R} r.
Arguments Thrown {ForeignError R} e.

End Worker.

(** ** The project manifest as the scheduler reads it *)

Module Project.

Inductive NearHandlerKind : Type :=
  | Block
  | Transaction
  | Action.

(** [handler.kind]: one of the three runtime kinds, or the free string of a
    custom handler. *)
Inductive handler_kind : Type :=
  | Base (k : NearHandlerKind)
  | CustomKind (name : string).

Record NearBlockFilter : Type := mkBlockFilter {
  modulo : option Z;
  timestamp : option string
}.

Inductive handler_filter : Type :=
  | BlockFilter (f : NearBlockFilter)
  | TransactionFilter (sender receiver : option string)
  | ActionFilter (type : option string)
  | CustomFilter.

Record NearHandler : Type := mkHandler {
  kind : handler_kind;
  filter : option handler_filter
}.

(** [ds.kind]: ['Near/Runtime'] or the kind of a custom datasource. *)
Inductive datasource_kind : Type :=
  | Runtime
  | Custom (name : string).

(** [SubqlProjectDs]; [startBlock] is optional in the type, [handlers] is
    [mapping.handlers]. *)
Record SubqlProjectDs : Type := mkDs {
  ds_kind : datasource_kind;
  startBlock : option Z;
  handlers : list NearHandler
}.

Definition isCustomDs (ds : SubqlProjectDs) : bool :=
  match ds_kind ds with
  | Runtime => false
  | Custom _ => true
  end.

(** [ds.startBlock <= blockHeight]: false when [startBlock] is
    [undefined]. *)
Definition starts_by (blockHeight : Z) (ds : SubqlProjectDs) : bool :=
  match startBlock ds with
  | Some s => s <=? blockHeight
  | None => false
  end.

(** [ProjectService.getAllDataSources(blockHeight)] on the project's
    datasources and the ones [dynamicDsService.getDynamicDatasources()]
    returned. *)
Definition getAllDataSources (dataSources dynamicDs : list SubqlProjectDs)
  (blockHeight : Z) : list SubqlProjectDs :=
  List.filter (starts_by blockHeight) (dataSources ++ dynamicDs).

End Project.

Import Project.

(** ** The fetch scheduler: [FetchService] *)

Module Fetch.

Definition DICTIONARY_MAX_QUERY_SIZE : Z := 10000.
Definition MINIMUM_BATCH_SIZE : Z := 5.

Record NodeConfig : Type := mkConfig {
  batchSize : Z;
  unfinalizedBlocks : bool
}.

(** [project.network.dictionary] and [project.dataSources]. *)
Record SubqueryProject : Type := mkProject {
  network_dictionary : option string;
  dataSources : list SubqlProjectDs
}.

(** What the scheduler reads from the block dispatcher. *)
Record BlockDispatcher : Type := mkDispatcher {
  latestBufferedHeight : option Z;
  freeSize : Z
}.

(** What the scheduler reads from the dictionary service:
    [startHeight] and the length of [getDictionaryQueryEntries(h)]. *)
Record DictionaryService : Type := mkDictionaryService {
  startHeight : option Z;
  queryEntriesLength : jsnum -> nat
}.

Record MetaData : Type := mkMetaData {
  lastProcessedHeight : Z;
  genesisHash : string;
  chain : string;
  meta_startHeight : Z
}.

Record Dictionary : Type := mkDictionary {
  batchBlocks : list Z;
  _metadata : MetaData
}.

(** The mutable fields of [FetchService].  [batchSizeScale] is given by
    its real value; the code holds the double nearest to it. *)
Record FetchService : Type := mkFetchService {
  latestBestHeight : option Z;
  latestFinalizedHeight : option Z;
  isShutdown : bool;
  batchSizeScale : Q;
  templateDynamicDatasouces : list SubqlProjectDs;
  dictionaryGenesisMatches : bool;
  bypassBlocks : list Z
}.

Definition set_dictionaryGenesisMatches (b : bool) (fs : FetchService) :=
  mkFetchService (latestBestHeight fs) (latestFinalizedHeight fs)
    (isShutdown fs) (batchSizeScale fs) (templateDynamicDatasouces fs)
    b (bypassBlocks fs).

Definition set_bypassBlocks (bs : list Z) (fs : FetchService) :=
  mkFetchService (latestBestHeight fs) (latestFinalizedHeight fs)
    (isShutdown fs) (batchSizeScale fs) (templateDynamicDatasouces fs)
    (dictionaryGenesisMatches fs) bs.

Definition set_latestBestHeight (h : Z) (fs : FetchService) :=
  mkFetchService (Some h) (latestFinalizedHeight fs)
    (isShutdown fs) (batchSizeScale fs) (templateDynamicDatasouces fs)
    (dictionaryGenesisMatches fs) (bypassBlocks fs).

Definition set_latestFinalizedHeight (h : Z) (fs : FetchService) :=
  mkFetchService (latestBestHeight fs) (Some h)
    (isShutdown fs) (batchSizeScale fs) (templateDynamicDatasouces fs)
    (dictionaryGenesisMatches fs) (bypassBlocks fs).

Definition set_isShutdown (b : bool) (fs : FetchService) :=
  mkFetchService (latestBestHeight fs) (latestFinalizedHeight fs)
    b (batchSizeScale fs) (templateDynamicDatasouces fs)
    (dictionaryGenesisMatches fs) (bypassBlocks fs).

Definition set_batchSizeScale (q : Q) (fs : FetchService) :=
  mkFetchService (latestBestHeight fs) (latestFinalizedHeight fs)
    (isShutdown fs) q (templateDynamicDatasouces fs)
    (dictionaryGenesisMatches fs) (bypassBlocks fs).

Definition set_templateDynamicDatasouces (ds : list SubqlProjectDs)
  (fs : FetchService) :=
  mkFetchService (latestBestHeight fs) (latestFinalizedHeight fs)
    (isShutdown fs) (batchSizeScale fs) ds
    (dictionaryGenesisMatches fs) (bypassBlocks fs).

(** Events emitted and lines logged by the scheduler. *)
Inductive event : Type :=
  | UsingDictionary (value : Z)
  | SkipDictionary
  | LogDictionaryMismatch
  | LogDictionaryBehind
  | LogQueueReset
  | LogFetchDictionaryStopped
  | LogBypassing (pollutedBlocks : list Z).

(** The reply of [dictionaryService.scopedDictionaryEntries]. *)
Inductive dictionary_reply : Type :=
  | QueryThrows
  | QueryUndefined
  | QueryResult (d : Dictionary).

(** What one pass of the loop in [fillNextBlockBuffer] does: sleep and
    retry, drop a stale dictionary answer, or call
    [blockDispatcher.enqueueBlocks(heights, latestBufferHeight)]. *)
Inductive scan_action : Type :=
  | Delay
  | Discard
  | Enqueue (heights : list Z) (latestBufferHeight : jsnum).

(** [a > b] and [a >= b] against a possibly [undefined] right operand. *)
Definition gt_undef (a : Z) (b : option Z) : bool :=
  match b with Some b => a >? b | None => false end.

Definition ge_undef (a : Z) (b : option Z) : bool :=
  match b with Some b => a >=? b | None => false end.

(** [i % m === 0]; a zero divisor gives [NaN]. *)
Definition rem_is_zero (i m : Z) : bool :=
  if m =? 0 then false else Z.rem i m =? 0.

(** lodash [range(start, end)]: descending when [end < start]. *)
Definition lodash_range (a b : Z) : list Z :=
  if a <=? b then range a b
  else map (fun k => a - Z.of_nat k) (seq 0 (Z.to_nat (a - b))).

(** Modelled from the spec: [cleanedBatchBlocks] of the node-core package
    is not under src/.  The cleaned list is the requested list minus any
    bypass member that is at most the maximum of the requested list. *)
Definition cleanedBatchBlocks (bypassBlocks currentBlockBatch : list Z)
  : list Z :=
  without currentBlockBatch
    (List.filter
       (fun b => negb (lt (Math_max currentBlockBatch) (Num b)))
       bypassBlocks).

Section Scheduler.

Variable nodeConfig : NodeConfig.
Variable project : SubqueryProject.
Variable dictionaryService : DictionaryService.
(** [apiService.genesisHash()]. *)
Variable apiGenesisHash : string.

(** The modulo of a handler that [getModulos] collects: a block handler
    with a filter whose [modulo] is truthy. *)
Definition handler_modulo (h : NearHandler) : list Z :=
  match kind h, filter h with
  | Base Block, Some (BlockFilter f) =>
      match modulo f with
      | Some m => if m =? 0 then [] else [m]
      | None => []
      end
  | _, _ => []
  end.

Definition getModulos : list Z :=
  flat_map
    (fun ds => if isCustomDs ds then []
               else flat_map handler_modulo (handlers ds))
    (dataSources project).

Definition getModuloBlocks (startHeight endHeight : Z) : list Z :=
  List.filter
    (fun i =>
       match List.find (fun m => rem_is_zero i m) getModulos with
       | Some m => negb (m =? 0)
       | None => false
       end)
    (range startHeight endHeight).

(** [getEnqueuedModuloBlocks(startBlockHeight)].  With no modulo at all
    the upper bound is [-Infinity] and the loop body never runs. *)
Definition getEnqueuedModuloBlocks (startBlockHeight : Z) : list Z :=
  match Math_max getModulos with
  | Num maxModulo =>
      slice0 (batchSize nodeConfig)
        (getModuloBlocks startBlockHeight
           (batchSize nodeConfig * maxModulo + startBlockHeight))
  | _ => []
  end.

(** The getter [useDictionary]. *)
Definition useDictionary (fs : FetchService) (d : BlockDispatcher) : bool :=
  truthy_string (network_dictionary project)
  && dictionaryGenesisMatches fs
  && negb (Nat.eqb
       (queryEntriesLength dictionaryService
          (match latestBufferedHeight d with
           | Some h => Num h
           | None => Math_min (map startBlock (dataSources project))
           end))
       0%nat).

Definition getLatestBufferHeight (cleanedBatch rawBatchBlocks : list Z)
  : jsnum :=
  Math_max (cleanedBatch ++ rawBatchBlocks).

(** [filteredBlockBatch(currentBatchBlocks)]: the cleaned batch, and the
    service with the consumed bypass heights dropped from its list. *)
Definition filteredBlockBatch (fs : FetchService)
  (currentBatchBlocks : list Z) : list Z * FetchService * list event :=
  match bypassBlocks fs with
  | [] => (currentBatchBlocks, fs, [])
  | _ =>
      let cleanedBatch :=
        cleanedBatchBlocks (bypassBlocks fs) currentBatchBlocks in
      let pollutedBlocks :=
        List.filter (fun b => lt (Num b) (Math_max currentBatchBlocks))
                    (bypassBlocks fs) in
      (cleanedBatch,
       set_bypassBlocks (without (bypassBlocks fs) pollutedBlocks) fs,
       match pollutedBlocks with
       | [] => []
       | _ => [LogBypassing pollutedBlocks]
       end)
  end.

Definition nextEndBlockHeight (fs : FetchService)
  (startBlockHeight scaledBatchSize : Z) : Z :=
  let endBlockHeight := startBlockHeight + scaledBatchSize - 1 in
  if gt_undef endBlockHeight (latestFinalizedHeight fs) then
    if unfinalizedBlocks nodeConfig then
      if ge_undef endBlockHeight (latestBestHeight fs) then
        match latestBestHeight fs with
        | Some best => best
        | None => endBlockHeight
        end
      else endBlockHeight
    else
      match latestFinalizedHeight fs with
      | Some final => final
      | None => endBlockHeight
      end
  else endBlockHeight.

(** [dictionaryValidation(dictionary, startBlockHeight?)]; the
    dispatcher is read by the [useDictionary] inside the emitted event. *)
Definition dictionaryValidation (fs : FetchService) (d : BlockDispatcher)
  (dictionary : option MetaData) (startBlockHeight : option Z)
  : bool * FetchService * list event :=
  match dictionary with
  | None => (false, fs, [])
  | Some metaData =>
      if negb (String.eqb (genesisHash metaData) apiGenesisHash) then
        let fs' := set_dictionaryGenesisMatches false fs in
        (false, fs',
         [ LogDictionaryMismatch;
           UsingDictionary (if useDictionary fs' d then 1 else 0);
           SkipDictionary ])
      else
        match startBlockHeight with
        | Some s =>
            if lastProcessedHeight metaData <? s
            then (false, fs, [LogDictionaryBehind; SkipDictionary])
            else (true, fs, [])
        | None => (true, fs, [])
        end
  end.

Section Loop.

Variable initBlockHeight : Z.

Definition getStartBlockHeight (d : BlockDispatcher) : Z :=
  match latestBufferedHeight d with
  | Some h => if h =? 0 then initBlockHeight else h + 1
  | None => initBlockHeight
  end.

(** [scaledBatchSize]: the product is a product of doubles, rounded to a
    double before [Math.round] sees it. *)
Definition scaledBatchSize (fs : FetchService) : Z :=
  Z.max
    (Math_round
       (Number_multiply (batchSizeScale fs)
                        (inject_Z (batchSize nodeConfig))))
    (Z.min MINIMUM_BATCH_SIZE (batchSize nodeConfig * 3)).

(** [[].concat(...project.dataSources.map((ds) => ds.mapping.handlers))] *)
Definition all_handlers : list NearHandler :=
  flat_map handlers (dataSources project).

(** The tail of the loop body: the enqueue without the dictionary. *)
Definition enqueue_without_dictionary (fs : FetchService)
  (startBlockHeight scaled : Z) (emitted : list event)
  : scan_action * FetchService * list event :=
  let endHeight := nextEndBlockHeight fs startBlockHeight scaled in
  let enqueuingBlocks :=
    if negb (Nat.eqb (length all_handlers) 0)
       && Nat.eqb (length getModulos) (length all_handlers)
    then getEnqueuedModuloBlocks startBlockHeight
    else lodash_range startBlockHeight (endHeight + 1) in
  let '(cleanedBatch, fs', logged) :=
    filteredBlockBatch fs enqueuingBlocks in
  (Enqueue cleanedBatch (getLatestBufferHeight cleanedBatch enqueuingBlocks),
   fs', emitted ++ logged).

(** The branch taken once a dictionary answer passed validation. *)
Definition enqueue_from_dictionary (fs : FetchService)
  (after : BlockDispatcher) (startBlockHeight : Z) (d : Dictionary)
  (emitted : list event) : scan_action * FetchService * list event :=
  let queryEndBlock := startBlockHeight + DICTIONARY_MAX_QUERY_SIZE in
  let moduloBlocks := getModuloBlocks startBlockHeight queryEndBlock in
  let merged := sort_asc (batchBlocks d ++ moduloBlocks) in
  match merged with
  | [] =>
      (Enqueue []
         (Num (Z.min (queryEndBlock - 1)
                     (lastProcessedHeight (_metadata d)))),
       fs, emitted)
  | _ =>
      let maxBlockSize :=
        Z.min (Z.of_nat (length merged)) (freeSize after) in
      let enqueuingBlocks := slice0 maxBlockSize merged in
      let '(cleanedBatch, fs', logged) :=
        filteredBlockBatch fs enqueuingBlocks in
      (Enqueue cleanedBatch
         (getLatestBufferHeight cleanedBatch enqueuingBlocks),
       fs', emitted ++ logged)
  end.

(** One pass of [while (!this.isShutdown)] in [fillNextBlockBuffer].
    [before] is the dispatcher when the pass starts; [reply] and
    [after] are the answer of the dictionary query and the dispatcher
    once that query has been awaited. *)
Definition scan (fs : FetchService) (before : BlockDispatcher)
  (reply : dictionary_reply) (after : BlockDispatcher)
  : scan_action * FetchService * list event :=
  let startBlockHeight := getStartBlockHeight before in
  let scaled := scaledBatchSize fs in
  let latestHeight :=
    if unfinalizedBlocks nodeConfig then latestBestHeight fs
    else latestFinalizedHeight fs in
  if (freeSize before <? scaled) || gt_undef startBlockHeight latestHeight
  then (Delay, fs, [])
  else if useDictionary fs before
          && ge_undef startBlockHeight (startHeight dictionaryService)
  then
    match reply with
    | QueryThrows =>
        enqueue_without_dictionary fs startBlockHeight scaled
          [LogFetchDictionaryStopped; SkipDictionary]
    | QueryUndefined =>
        if negb (startBlockHeight =? getStartBlockHeight after)
        then (Discard, fs, [LogQueueReset])
        else enqueue_without_dictionary fs startBlockHeight scaled []
    | QueryResult d =>
        if negb (startBlockHeight =? getStartBlockHeight after)
        then (Discard, fs, [LogQueueReset])
        else
          let '(valid, fs', emitted) :=
            dictionaryValidation fs after (Some (_metadata d))
              (Some startBlockHeight) in
          if valid
          then enqueue_from_dictionary fs' after startBlockHeight d emitted
          else enqueue_without_dictionary fs' startBlockHeight scaled
                 emitted
    end
  else enqueue_without_dictionary fs startBlockHeight scaled [].

End Loop.

End Scheduler.

Section Session.

Variable nodeConfig : NodeConfig.
Variable project : SubqueryProject.
Variable apiGenesisHash : string.
Variable initBlockHeight : Z.

(** Every way the fields of the service change during a session: the
    shutdown hook, the resynchronisation of dynamic datasources, the
    bypass list set up by [init], the batch scale check, the two chain
    head pollers, a dictionary validation and a pass of the loop.  The
    dictionary service and the dispatcher may differ from one step to
    the next. *)
Inductive step : FetchService -> FetchService -> Prop :=
  | step_onApplicationShutdown fs :
      step fs (set_isShutdown true fs)
  | step_syncDynamicDatascourcesFromMeta fs ds :
      step fs (set_templateDynamicDatasouces ds fs)
  | step_init_bypassBlocks fs bs :
      step fs (set_bypassBlocks bs fs)
  | step_checkBatchScale fs scale :
      step fs (set_batchSizeScale scale fs)
  | step_getFinalizedBlockHead fs h :
      step fs (set_latestFinalizedHeight h fs)
  | step_getBestBlockHead fs h :
      step fs (set_latestBestHeight h fs)
  | step_dictionaryValidation fs dictionaryService d dictionary start :
      step fs
        (snd (fst (dictionaryValidation project dictionaryService
                     apiGenesisHash fs d dictionary start)))
  | step_scan fs dictionaryService before reply after :
      step fs
        (snd (fst (scan nodeConfig project dictionaryService
                     apiGenesisHash initBlockHeight
                     fs before reply after))).

End Session.

(** The heights a pass hands to the dispatcher, if it enqueues at all. *)
Definition enqueued (a : scan_action) : option (list Z) :=
  match a with
  | Enqueue heights _ => Some heights
  | _ => None
  end.

(** The modulo-only scenario: one runtime datasource starting at 1000
    whose only handler is a block handler with modulo 100, no dictionary;
    the finalized head is 1500, the batch scale is 1 and the bypass list
    is empty. *)
Definition every_hundredth : SubqueryProject :=
  mkProject None
    [mkDs Runtime (Some 1000)
       [mkHandler (Base Block)
          (Some (BlockFilter (mkBlockFilter (Some 100) None)))]].

Definition head_at_1500 : FetchService :=
  mkFetchService None (Some 1500) false 1 [] true [].

End Fetch.

(** ** Block and transaction filters: [filterBlock], [filterBlockModulo],
    [filterTransaction], [filterTransactions] *)

Module Filters.

Import Near.

(** [SubqlProjectBlockFilter]: a block filter together with the schedule
    compiled from its [timestamp] at project load. *)
Record SubqlProjectBlockFilter : Type := mkProjectBlockFilter {
  block_filter : NearBlockFilter;
  cronSchedule : option Seeker
}.

(** [filterBlockModulo(block, filter)] on [block.header.height]; a missing
    or zero [modulo] passes every block. *)
Definition filterBlockModulo (height : Z) (f : NearBlockFilter) : bool :=
  match modulo f with
  | None => true
  | Some m => if m =? 0 then true else Z.rem height m =? 0
  end.

(** Reading [filter.cronSchedule.next] when no schedule was attached. *)
Inductive filter_error : Type :=
  | TypeError_cronSchedule_undefined.

Section Blocks.

Context {NearBlock : Type}.
(** [block.header.height] and [block.header.timestamp]. *)
Variable height : NearBlock -> Z.
Variable block_timestamp : NearBlock -> Z.
Variable slot : Z -> Z.

(** [filterBlock(block, filter?)]: the block or [undefined], the filter
    with the schedule it is left with, and the lines logged. *)
Definition filterBlock (block : NearBlock)
  (f : option SubqlProjectBlockFilter)
  : filter_error
    + (option NearBlock * option SubqlProjectBlockFilter * list log_line) :=
  match f with
  | None => inr (Some block, None, [])
  | Some f =>
      if negb (filterBlockModulo (height block) (block_filter f))
      then inr (None, Some f, [])
      else if truthy_string (timestamp (block_filter f)) then
        match cronSchedule f with
        | None => inl TypeError_cronSchedule_undefined
        | Some schedule =>
            let '(matched, schedule', logs) :=
              filterBlockTimestamp slot (block_timestamp block) schedule in
            inr (if matched then Some block else None,
                 Some (mkProjectBlockFilter (block_filter f) (Some schedule')),
                 logs)
        end
      else inr (Some block, Some f, [])
  end.

End Blocks.

Record NearTransactionFilter : Type := mkTransactionFilter {
  sender : option string;
  receiver : option string
}.

(** The argument [filter | filter[] | undefined] of the array filters. *)
Inductive filter_or_filters (F : Type) : Type :=
  | NoFilter
  | OneFilter (f : F)
  | ManyFilters (fs : list F).
Arguments NoFilter {F}.
Arguments OneFilter {F} f.
Arguments ManyFilters {F} fs.

Section Transactions.

Context {NearTransaction : Type}.

(** [filterTransaction(transaction, filter?)]. *)
Definition filterTransaction (transaction : NearTransaction)
  (f : option NearTransactionFilter) : bool := true.

(** [filterTransactions(transactions, filterOrFilters)]. *)
Definition filterTransactions (transactions : list NearTransaction)
  (arg : filter_or_filters NearTransactionFilter) : list NearTransaction :=
  match arg with
  | NoFilter => transactions
  | ManyFilters [] => transactions
  | _ =>
      let filters :=
        match arg with
        | ManyFilters fs => fs
        | OneFilter f => [f]
        | NoFilter => []
        end in
      List.filter
        (fun transaction =>
           match List.find (fun f => filterTransaction transaction (Some f))
                           filters with
           | Some _ => true
           | None => false
           end)
        transactions
  end.

End Transactions.

End Filters.

(** ** The block assembler: [wrapBlock] and [wrapTransaction] *)

Module Rpc.

Module Header.
Record t : Type := mk {
  height : Z;
  hash : string;
  prev_hash : string;
  timestamp : Z;
  gas_price : string
}.
End Header.

Module Tx.
(** A transaction as a chunk lists it. *)
Record t : Type := mk {
  hash : string;
  signer_id : string;
  receiver_id : string;
  actions : list Near.wire_action
}.
End Tx.

(** [chunkResult.transactions] and [chunkResult.receipts]. *)
Record ChunkResult (Receipt : Type) : Type := mkChunkResult {
  chunk_transactions : list Tx.t;
  chunk_receipts : list Receipt
}.
Arguments mkChunkResult {Receipt} _ _.
Arguments chunk_transactions {Receipt} _.
Arguments chunk_receipts {Receipt} _.

(** [blockResult]: author, header and the chunk headers, of which only
    [chunk_hash] is read. *)
Record BlockResult : Type := mkBlockResult {
  author : string;
  header : Header.t;
  chunks : list string
}.

(** [transaction_outcome] of [txStatusReceipts]: its [id] and the
    [gas_burnt] and [logs] of its [outcome]. *)
Record TxOutcome : Type := mkTxOutcome {
  outcome_id : string;
  gas_burnt : Z;
  logs : list string
}.

(** The two calls [wrapBlock] makes; either can fail. *)
Record Api (Receipt RpcError : Type) : Type := mkApi {
  chunk : string -> RpcError + ChunkResult Receipt;
  txStatusReceipts : string -> string -> RpcError + TxOutcome
}.
Arguments mkApi {Receipt RpcError} _ _.
Arguments chunk {Receipt RpcError} _ _.
Arguments txStatusReceipts {Receipt RpcError} _ _ _.

End Rpc.

Module Assembler.

Import Near.

(** [gas_burnt.toString()]. *)
Definition toString (n : Z) : string := NilZero.string_of_int (Z.to_int n).

(** [NearTransaction]: the chunk's transaction ([...txn]) and the fields
    [wrapTransaction] adds. *)
Record NearTransaction : Type := mkNearTransaction {
  txn : Rpc.Tx.t;
  gas_price : string;
  gas_used : string;
  block_hash : string;
  block_height : Z;
  timestamp : Z;
  result_id : string;
  result_logs : list string
}.

Section WrapBlock.

Context {Receipt RpcError : Type}.

Record NearBlock : Type := mkNearBlock {
  author : string;
  header : Rpc.Header.t;
  chunks : list string;
  transactions : list NearTransaction;
  actions : list (NearAction NearTransaction);
  receipts : list Receipt
}.

(** What [wrapBlock] can throw: a failed call or an undecodable action. *)
Inductive wrap_error : Type :=
  | RpcFailed (e : RpcError)
  | ActionFailed (e : Js.error).

Definition wrapTransaction (api : Rpc.Api Receipt RpcError)
  (block : Rpc.BlockResult) (t : Rpc.Tx.t) : RpcError + NearTransaction :=
  match Rpc.txStatusReceipts api (Rpc.Tx.hash t) (Rpc.Tx.signer_id t) with
  | inl e => inl e
  | inr exectuionOutcome =>
      inr (mkNearTransaction t
             (Rpc.Header.gas_price (Rpc.header block))
             (toString (Rpc.gas_burnt exectuionOutcome))
             (Rpc.Header.hash (Rpc.header block))
             (Rpc.Header.height (Rpc.header block))
             (Rpc.Header.timestamp (Rpc.header block))
             (Rpc.outcome_id exectuionOutcome)
             (Rpc.logs exectuionOutcome))
  end.

(** [transaction.actions.map((action, id) => wrapAction(action, id,
    wrappedTx))], from index [id] on; the first action that cannot be
    decoded throws. *)
Fixpoint wrapActions (acts : list wire_action) (id : nat)
  (wrappedTx : NearTransaction) : Js.error + list (NearAction NearTransaction) :=
  match acts with
  | [] => inr []
  | a :: rest =>
      match wrapAction a id wrappedTx with
      | inl e => inl e
      | inr nearAction =>
          match wrapActions rest (S id) wrappedTx with
          | inl e => inl e
          | inr nearActions => inr (nearAction :: nearActions)
          end
      end
  end.

(** The inner loop of [wrapBlock] over the transactions of one chunk. *)
Fixpoint wrapChunkTransactions (api : Rpc.Api Receipt RpcError)
  (block : Rpc.BlockResult) (txs : list Rpc.Tx.t) (nearBlock : NearBlock)
  : wrap_error + NearBlock :=
  match txs with
  | [] => inr nearBlock
  | t :: rest =>
      match wrapTransaction api block t with
      | inl e => inl (RpcFailed e)
      | inr wrappedTx =>
          match wrapActions (Rpc.Tx.actions t) 0 wrappedTx with
          | inl e => inl (ActionFailed e)
          | inr nearActions =>
              wrapChunkTransactions api block rest
                (mkNearBlock (author nearBlock) (header nearBlock)
                   (chunks nearBlock)
                   (transactions nearBlock ++ [wrappedTx])
                   (actions nearBlock ++ nearActions)
                   (receipts nearBlock))
          end
      end
  end.

(** The outer loop of [wrapBlock] over the chunks. *)
Fixpoint wrapChunks (api : Rpc.Api Receipt RpcError)
  (block : Rpc.BlockResult) (hashes : list string) (nearBlock : NearBlock)
  : wrap_error + NearBlock :=
  match hashes with
  | [] => inr nearBlock
  | chunk_hash :: rest =>
      match Rpc.chunk api chunk_hash with
      | inl e => inl (RpcFailed e)
      | inr chunkResult =>
          match wrapChunkTransactions api block
                  (Rpc.chunk_transactions chunkResult) nearBlock with
          | inl e => inl e
          | inr nearBlock' =>
              wrapChunks api block rest
                (mkNearBlock (author nearBlock') (header nearBlock')
                   (chunks nearBlock') (transactions nearBlock')
                   (actions nearBlock')
                   (receipts nearBlock' ++ Rpc.chunk_receipts chunkResult))
          end
      end
  end.

(** [wrapBlock(api, blockResult)]. *)
Definition wrapBlock (api : Rpc.Api Receipt RpcError)
  (blockResult : Rpc.BlockResult) : wrap_error + NearBlock :=
  wrapChunks api blockResult (Rpc.chunks blockResult)
    (mkNearBlock (Rpc.author blockResult) (Rpc.header blockResult)
       (Rpc.chunks blockResult) [] [] []).

End WrapBlock.

Arguments NearBlock : clear implicits.
Arguments wrap_error : clear implicits.

End Assembler.

(** ** The project loader: [processChainId] *)

Module Manifest.

(** The two properties of [network] that [processChainId] touches; the
    rest of the object travels along unchanged. *)
Record Network (Rest : Type) : Type := mkNetwork {
  chainId : option string;
  genesisHash : option string;
  rest : Rest
}.
Arguments mkNetwork {Rest} _ _ _.
Arguments chainId {Rest} _.
Arguments genesisHash {Rest} _.
Arguments rest {Rest} _.

Definition OnlyOneOfChainIdAndGenesisHash : Js.error :=
  Error "Please only provide one of chainId and genesisHash".

(** [processChainId(network)]; [delete network.genesisHash] leaves the
    property [undefined]. *)
Definition processChainId {Rest : Type} (network : Network Rest)
  : Js.error + Network Rest :=
  if truthy_string (chainId network) && truthy_string (genesisHash network)
  then inl OnlyOneOfChainIdAndGenesisHash
  else if truthy_string (genesisHash network)
          && negb (truthy_string (chainId network))
  then inr (mkNetwork (genesisHash network) None (rest network))
  else inr (mkNetwork (chainId network) None (rest network)).

End Manifest.

(** ** The API service: [ApiService.init] *)

Module Api.

(** [NetworkMetadataPayload]. *)
Record NetworkMeta : Type := mkNetworkMeta {
  chain : string;
  genesisHash : string
}.

Section Init.

Context {RpcError : Type}.

(** A connection as [init] uses it: its [networkMeta], the answer of
    [api.status()] (its [chain_id]) and the hash of the block at
    [GENESIS_BLOCK]. *)
Record NearApiConnection : Type := mkConnection {
  networkMeta : NetworkMeta;
  status : RpcError + string;
  genesis_block_hash : RpcError + string
}.

Inductive init_error : Type :=
  | RpcFailed (e : RpcError)
  | ChainIdMismatch (expected actual : string)
  | GenesisHashMismatch (expected actual : string).

Inductive api_event : Type :=
  | ApiConnected (apiIndex : nat) (endpoint : string).

(** The state the loop of [init] carries: [this.networkMeta], the
    [endpointToApiIndex] object and the events emitted so far. *)
Record init_state : Type := mkInitState {
  service_networkMeta : option NetworkMeta;
  endpointToApiIndex : gmap string NearApiConnection;
  emitted : list api_event
}.

(** [NearApiConnection.create(endpoint, ...)]. *)
Variable create : string -> RpcError + NearApiConnection.
(** [network.chainId]. *)
Variable network_chainId : option string.

(** The body of the loop for the endpoint at index [i]. *)
Definition connect (st : init_state) (i : nat) (endpoint : string)
  : init_error + init_state :=
  match create endpoint with
  | inl e => inl (RpcFailed e)
  | inr connection =>
      let events := emitted st ++ [ApiConnected i endpoint] in
      match status connection with
      | inl e => inl (RpcFailed e)
      | inr _ =>
          match service_networkMeta st with
          | None =>
              let meta := networkMeta connection in
              match network_chainId with
              | Some declared =>
                  if truthy_string (Some declared)
                     && negb (String.eqb declared (chain meta))
                  then inl (ChainIdMismatch declared (chain meta))
                  else inr (mkInitState (Some meta)
                              (<[endpoint := connection]>
                                 (endpointToApiIndex st))
                              events)
              | None =>
                  inr (mkInitState (Some meta)
                         (<[endpoint := connection]> (endpointToApiIndex st))
                         events)
              end
          | Some meta =>
              match genesis_block_hash connection with
              | inl e => inl (RpcFailed e)
              | inr genesisHash' =>
                  if negb (String.eqb (genesisHash meta) genesisHash')
                  then inl (GenesisHashMismatch (genesisHash meta)
                              genesisHash')
                  else inr (mkInitState (Some meta)
                              (<[endpoint := connection]>
                                 (endpointToApiIndex st))
                              events)
              end
          end
      end
  end.

(** [for await (const [i, endpoint] of network.endpoint.entries())]. *)
Fixpoint connect_all (st : init_state) (i : nat) (endpoints : list string)
  : init_error + init_state :=
  match endpoints with
  | [] => inr st
  | endpoint :: more =>
      match connect st i endpoint with
      | inl e => inl e
      | inr st' => connect_all st' (S i) more
      end
  end.

(** [init()] on a fresh service: the network metadata it settles on and
    the batch handed to [connectionPoolService.addBatchToConnections]. *)
Definition init (endpoints : list string) : init_error + init_state :=
  connect_all (mkInitState None ∅ []) 0 endpoints.

End Init.

End Api.

(** ** Datasource processors: [asSecondLayerHandlerProcessor_1_0_0] *)

Module DsProcessor.

Section Processors.

(** The handler filter, the input, the datasource, the API, the assets,
    the transformed value, the errors a transformer can reject with, and
    the fields both versions share ([baseHandlerKind], [baseFilter],
    [filterValidator], [dictionaryQuery]). *)
Context {F Input DS Api Assets E Rejection Base : Type}.

(** The parameter object of the 1.0.0 functions. *)
Record Params : Type := mkParams {
  p_filter : option F;
  p_input : Input;
  p_ds : DS;
  p_api : Api;
  p_assets : option Assets
}.

(** A processor as the union type allows it, plus one whose [specVersion]
    is some other string. *)
Inductive processor : Type :=
  | Processor_0_0_0
      (base : Base)
      (filterProcessor : option F -> Input -> DS -> bool)
      (transformer : Input -> DS -> Api -> option Assets -> Rejection + E)
  | Processor_1_0_0
      (base : Base)
      (filterProcessor : Params -> bool)
      (transformer : Params -> Rejection + list E)
  | Processor_other (specVersion : string) (base : Base).

Definition specVersion_of (p : processor) : option string :=
  match p with
  | Processor_0_0_0 _ _ _ => None
  | Processor_1_0_0 _ _ _ => Some "1.0.0"
  | Processor_other v _ => Some v
  end.

Definition isSecondLayerHandlerProcessor_0_0_0 (p : processor) : bool :=
  match specVersion_of p with
  | None => true
  | Some _ => false
  end.

Definition isSecondLayerHandlerProcessor_1_0_0 (p : processor) : bool :=
  match specVersion_of p with
  | Some v => String.eqb v "1.0.0"
  | None => false
  end.

Definition UnsupportedVersion : Js.error :=
  Error "Unsupported ds processor version".

Definition asSecondLayerHandlerProcessor_1_0_0 (p : processor)
  : Js.error + processor :=
  if isSecondLayerHandlerProcessor_1_0_0 p then inr p
  else if negb (isSecondLayerHandlerProcessor_0_0_0 p)
  then inl UnsupportedVersion
  else
    match p with
    | Processor_0_0_0 base filterProcessor transformer =>
        inr (Processor_1_0_0 base
               (fun params =>
                  filterProcessor (p_filter params) (p_input params)
                                  (p_ds params))
               (fun params =>
                  match transformer (p_input params) (p_ds params)
                                    (p_api params) (p_assets params) with
                  | inl e => inl e
                  | inr res => inr [res]
                  end))
    | _ => inl UnsupportedVersion
    end.

End Processors.

End DsProcessor.

(** ** The target of a pass *)

Module Target.

Import Fetch.

(** [latestHeight] in [fillNextBlockBuffer]: the chain head a pass
    measures the start height against. *)
Definition latestHeight (nodeConfig : NodeConfig) (fs : FetchService)
  : option Z :=
  if unfinalizedBlocks nodeConfig then latestBestHeight fs
  else latestFinalizedHeight fs.

End Target.

Import Target.

(** ** The worker's counters *)

Module WorkerStatus.

Import Worker.

(** [numFetchedBlocks]: [Object.keys(this.fetchedBlocks).length]. *)
Definition numFetchedBlocks {BlockContent : Type}
  (w : @WorkerService BlockContent) : nat :=
  size (fetchedBlocks w).

End WorkerStatus.

(** * Properties *)

(** ** Action decoding *)

Section ActionDecoding.

Import Near.
Context {Tx : Type}.

Lemma is_action_type_In (t : string) :
  is_action_type t = true <-> In t action_types.
Proof.
  unfold is_action_type. rewrite existsb_exists. split.
  - intros (x & Hx & Heq). apply String.eqb_eq in Heq. now subst.
  - intros Hin. exists t. split; [assumption | apply String.eqb_refl].
Qed.

Lemma is_action_type_not_In (t : string) :
  ~ In t action_types -> is_action_type t = false.
Proof.
  intros Hn. destruct (is_action_type t) eqn:E; [|reflexivity].
  apply is_action_type_In in E. contradiction.
Qed.

Lemma wrapAction_record (k : string) (v : json) rest (i : nat) (tx : Tx) :
  wrapAction (WRecord ((k, v) :: rest)) i tx =
  if is_action_type k then inr (mkNearAction i k v tx)
  else inl InvalidAction.
Proof.
  unfold wrapAction. cbn [is_CreateAccount_literal Object_keys map fst hd_error].
  cbn [get_prop assoc]. rewrite String.eqb_refl.
  unfold parseNearAction. destruct (is_action_type k); reflexivity.
Qed.

Lemma wrapAction_other_string (s : string) (i : nat) (tx : Tx) :
  s <> "CreateAccount" -> wrapAction (WString s) i tx = inl InvalidAction.
Proof.
  intros Hs. unfold wrapAction. cbn [is_CreateAccount_literal].
  apply String.eqb_neq in Hs. rewrite Hs.
  destruct s as [|c s']; [reflexivity|].
  cbn [Object_keys String.length seq map hd_error].
  reflexivity.
Qed.

(** C7.  Decoding a wire action.  The literal string ["CreateAccount"]
    decodes to the [CreateAccount] action with the empty object as its
    payload; a record decodes to its first key (its single key, for a
    well-formed action) as the type and that key's value as the payload,
    provided the key is one of the eight action types; a record whose key
    is any other string, a record with no key and any other string are
    rejected with the invalid-action error. *)
Theorem wrapAction_decoding (i : nat) (tx : Tx) :
  wrapAction (WString "CreateAccount") i tx
    = inr (mkNearAction i "CreateAccount" (JObj []) tx)
  /\ (forall k v rest, In k action_types ->
        wrapAction (WRecord ((k, v) :: rest)) i tx
          = inr (mkNearAction i k v tx))
  /\ (forall k v rest, ~ In k action_types ->
        wrapAction (WRecord ((k, v) :: rest)) i tx = inl InvalidAction)
  /\ wrapAction (WRecord []) i tx = inl InvalidAction
  /\ (forall s, s <> "CreateAccount" ->
        wrapAction (WString s) i tx = inl InvalidAction).
Proof.
  split; [reflexivity|]. split; [|split; [|split]].
  - intros k v rest Hin. rewrite wrapAction_record.
    apply is_action_type_In in Hin. now rewrite Hin.
  - intros k v rest Hn. rewrite wrapAction_record.
    now rewrite (is_action_type_not_In k Hn).
  - reflexivity.
  - intros s Hs. now apply wrapAction_other_string.
Qed.

End ActionDecoding.

Lemma wrapAction_decoding_witness :
  Near.wrapAction (Near.WRecord [("Transfer", JObj [("deposit", JStr "1")])])
                  2%nat tt
    = inr (Near.mkNearAction 2%nat "Transfer"
             (JObj [("deposit", JStr "1")]) tt)
  /\ Near.wrapAction (Near.WRecord [("Mint", JNull)]) 0%nat tt
       = inl Near.InvalidAction
  /\ Near.wrapAction (Near.WString "Transfer") 0%nat tt
       = inl Near.InvalidAction.
Proof.
  split; [|split].
  - apply (proj1 (proj2 (wrapAction_decoding 2%nat tt))).
    simpl. tauto.
  - apply (proj1 (proj2 (proj2 (wrapAction_decoding 0%nat tt)))).
    simpl. intuition discriminate.
  - apply (proj2 (proj2 (proj2 (proj2 (wrapAction_decoding 0%nat tt))))).
    discriminate.
Defined.

(** ** Action filters *)

Section ActionFilters.

Import Near.
Context {Tx : Type}.

Lemma filterAction_passes (a : NearAction Tx) (f : NearActionFilter) :
  filterAction a (Some f) = true <-> filter_passes a f.
Proof.
  unfold filterAction, filter_passes, type_unset, truthy_string.
  destruct (filter_type f) as [t|]; [|intuition].
  destruct (String.eqb_spec t "") as [->|Hne]; cbn [negb].
  - intuition.
  - rewrite String.eqb_eq. split.
    + intros ->. now right.
    + intros [[H|H]|H]; try discriminate; inversion H; congruence.
Qed.

Lemma find_filter_Exists (a : NearAction Tx) (fs : list NearActionFilter) :
  match List.find (fun f => filterAction a (Some f)) fs with
  | Some _ => true
  | None => false
  end = bool_decide (Exists (filter_passes a) fs).
Proof.
  symmetry. destruct (List.find _ fs) as [f|] eqn:E.
  - apply find_some in E as [Hin Hp]. apply bool_decide_eq_true.
    apply List.Exists_exists. exists f. split; [assumption|].
    now apply filterAction_passes.
  - apply bool_decide_eq_false. rewrite List.Exists_exists.
    intros (f & Hin & Hp). apply filterAction_passes in Hp.
    pose proof (find_none _ _ E f Hin) as Hf. cbn beta in Hf.
    rewrite Hp in Hf. discriminate.
Qed.

(** C9.  [filterActions] with an undefined filter argument or an empty
    array of filters returns the actions unchanged; with a single filter
    or a non-empty array it keeps, in order, exactly the actions that at
    least one filter passes, where a filter passes an action when its
    [type] is unset or equals the action's type. *)
Theorem filterActions_any_filter (actions : list (NearAction Tx)) :
  filterActions actions FUndefined = actions
  /\ filterActions actions (FArray []) = actions
  /\ (forall f,
        filterActions actions (FSingle f)
        = List.filter (fun a => bool_decide (filter_passes a f)) actions)
  /\ (forall f fs,
        filterActions actions (FArray (f :: fs))
        = List.filter
            (fun a => bool_decide (Exists (filter_passes a) (f :: fs)))
            actions).
Proof.
  split; [reflexivity|]. split; [reflexivity|]. split.
  - intros f. unfold filterActions. cbn [filters_of].
    apply List.filter_ext. intros a.
    rewrite find_filter_Exists. apply bool_decide_ext.
    rewrite Exists_cons, Exists_nil. tauto.
  - intros f fs. unfold filterActions. cbn [filters_of].
    apply List.filter_ext. intros a. apply find_filter_Exists.
Qed.

End ActionFilters.

(** ** Cron timestamp filter *)

Section CronFilter.

Import Near.
Variable slot : Z -> Z.

(** Reading [next] and then calling [prev()] puts the schedule back. *)
Lemma prev_after_next (s : Seeker) :
  snd (Seeker_prev slot (snd (cronSchedule_next slot s))) = s.
Proof.
  destruct s as [c]. unfold Seeker_prev, cronSchedule_next, Seeker_next.
  cbn. f_equal. lia.
Qed.

Lemma filterBlockTimestamp_match (t : Z) (s : Seeker) :
  t > upcoming slot s ->
  filterBlockTimestamp slot t s
  = (true, mkSeeker (cursor s + 1),
     [AboutToBeIndexed t; NextIndexedAt (slot (cursor s + 2))]).
Proof.
  intros Ht. unfold upcoming, cronSchedule_next, Seeker_next in Ht.
  cbn in Ht. unfold filterBlockTimestamp, cronSchedule_next, Seeker_next,
    Seeker_prev. cbn.
  destruct (Z.gtb_spec t (slot (cursor s + 1))); [|lia].
  replace (cursor s + 1 + 1 - 1) with (cursor s + 1) by lia.
  replace (cursor s + 1 + 1) with (cursor s + 2) by lia.
  reflexivity.
Qed.

Lemma filterBlockTimestamp_no_match (t : Z) (s : Seeker) :
  t <= upcoming slot s ->
  filterBlockTimestamp slot t s = (false, s, []).
Proof.
  intros Ht. unfold upcoming, cronSchedule_next, Seeker_next in Ht.
  cbn in Ht. unfold filterBlockTimestamp, cronSchedule_next, Seeker_next,
    Seeker_prev. cbn.
  destruct (Z.gtb_spec t (slot (cursor s + 1))); [lia|].
  destruct s as [c]. cbn.
  replace (c + 1 - 1) with c by lia. reflexivity.
Qed.

(** C4.  Against a cron filter whose schedule is at [s]: a block whose
    timestamp exceeds the schedule's next slot is a match, two lines are
    logged and the schedule is left exactly one slot further than before
    the call (two reads of [next], one [prev()]); any other block is no
    match and the rewind leaves the schedule where it was.  Hence, after
    a block at time [t] matched, a query at a time before the slot the
    schedule then points to is no match and changes nothing, and a query
    at a time after that slot is a match and advances the schedule by
    one slot. *)
Theorem filterBlockTimestamp_cron (t : Z) (s : Seeker) :
  (t > upcoming slot s ->
     filterBlockTimestamp slot t s
     = (true, mkSeeker (cursor s + 1),
        [AboutToBeIndexed t; NextIndexedAt (slot (cursor s + 2))]))
  /\ (t <= upcoming slot s ->
        filterBlockTimestamp slot t s = (false, s, []))
  /\ (forall s' logs,
        filterBlockTimestamp slot t s = (true, s', logs) ->
        cursor s' = cursor s + 1
        /\ forall t',
             (t' < upcoming slot s' ->
                filterBlockTimestamp slot t' s' = (false, s', []))
             /\ (t' > upcoming slot s' ->
                   exists logs',
                     logs' <> []
                     /\ filterBlockTimestamp slot t' s'
                        = (true, mkSeeker (cursor s' + 1), logs'))).
Proof.
  split; [apply filterBlockTimestamp_match|].
  split; [apply filterBlockTimestamp_no_match|].
  intros s' logs Hm. split.
  - destruct (Z_gt_le_dec t (upcoming slot s)) as [Hgt|Hle].
    + rewrite (filterBlockTimestamp_match t s Hgt) in Hm.
      inversion Hm. reflexivity.
    + rewrite (filterBlockTimestamp_no_match t s Hle) in Hm. discriminate.
  - intros t'. split.
    + intros Hlt. apply filterBlockTimestamp_no_match. lia.
    + intros Hgt. eexists. split; [|now apply filterBlockTimestamp_match].
      discriminate.
Qed.

End CronFilter.

Lemma filterBlockTimestamp_cron_witness :
  let every_minute := fun k => 60000 * k in
  Near.filterBlockTimestamp every_minute 60001 (Near.mkSeeker 0)
    = (true, Near.mkSeeker 1,
       [Near.AboutToBeIndexed 60001; Near.NextIndexedAt 120000])
  /\ Near.filterBlockTimestamp every_minute 60000 (Near.mkSeeker 0)
       = (false, Near.mkSeeker 0, [])
  /\ Near.filterBlockTimestamp every_minute 90000 (Near.mkSeeker 1)
       = (false, Near.mkSeeker 1, []).
Proof.
  intros every_minute.
  pose proof (filterBlockTimestamp_cron every_minute 60001 (Near.mkSeeker 0))
    as (Hmatch & _ & Hnext).
  pose proof (filterBlockTimestamp_cron every_minute 60000 (Near.mkSeeker 0))
    as (_ & Hno & _).
  split; [apply Hmatch; reflexivity|].
  split; [apply Hno; vm_compute; discriminate|].
  destruct (Hnext (Near.mkSeeker 1)
              [Near.AboutToBeIndexed 60001; Near.NextIndexedAt 120000])
    as [_ Hre].
  - apply Hmatch. reflexivity.
  - apply (proj1 (Hre 90000)). reflexivity.
Defined.

(** ** The worker *)

Section WorkerProperties.

Import Worker.
Context {BlockContent DataSource ForeignError : Type}.

Abbreviation WorkerService := (@WorkerService BlockContent).
Abbreviation IndexEnv := (@IndexEnv BlockContent DataSource ForeignError).
Abbreviation FetchEnv := (@FetchEnv BlockContent ForeignError).

(** C8.  [processBlock(h)] on a worker whose fetched entry for [h] is
    [null] returns the response with a null hash, no dynamic datasource
    and no reindex height, logs a warning and throws nothing; the
    fetched blocks are left as they were.  Every other error met while
    the block is indexed is thrown again: the one for a block that was
    never fetched, an error of the project service and an error of the
    indexer manager.  A successful run returns the indexer's response.
    In all cases the indexing flag is cleared on the way out. *)
Theorem processBlock_unavailable_or_rethrow
  (env : IndexEnv) (w : WorkerService) (h : Z) :
  (read w h = Null ->
     processBlock env w h
     = (mkWorker (fetchedBlocks w) false,
        Returned (mkResponse None false None),
        [LogWarn (BlockUnavailableError h)]))
  /\ (read w h = Undefined ->
        processBlock env w h
        = (mkWorker (fetchedBlocks w) false, Thrown (NotFetched h),
           [LogErrorIndex (NotFetched h) h]))
  /\ (forall block e,
        read w h = Content block ->
        getAllDataSources env h = inl e ->
        processBlock env w h
        = (mkWorker (delete h (fetchedBlocks w)) false, Thrown (Foreign e),
           [LogErrorIndex (Foreign e) h]))
  /\ (forall block ds e,
        read w h = Content block ->
        getAllDataSources env h = inr ds ->
        indexBlock env block ds = inl e ->
        processBlock env w h
        = (mkWorker (delete h (fetchedBlocks w)) false, Thrown (Foreign e),
           [LogErrorIndex (Foreign e) h]))
  /\ (forall block ds r,
        read w h = Content block ->
        getAllDataSources env h = inr ds ->
        indexBlock env block ds = inr r ->
        processBlock env w h
        = (mkWorker (delete h (fetchedBlocks w)) false, Returned r, [])).
Proof.
  unfold processBlock, processBlock_try.
  assert (Hread : read (set_isIndexing true w) h = read w h) by reflexivity.
  rewrite Hread. repeat split.
  - intros ->. reflexivity.
  - intros ->. reflexivity.
  - intros block e -> Hds. cbn. rewrite Hds. reflexivity.
  - intros block ds e -> Hds Hix. cbn. rewrite Hds, Hix. reflexivity.
  - intros block ds r -> Hds Hix. cbn. rewrite Hds, Hix. reflexivity.
Qed.

(** The task either stores an entry and returns, or throws and leaves
    the worker as it was. *)
Lemma fetchTask_throw_keeps_worker (env : FetchEnv) (w : WorkerService)
  (h : Z) w' e logs :
  fetchTask env w h = (w', Thrown e, logs) -> w' = w.
Proof.
  unfold fetchTask. destruct (falsy (read w h)); [|discriminate].
  destruct (fetchBlocks env [h]); intros H; inversion H; reflexivity.
Qed.

(** C10.  [fetchBlock(h)] never throws: whatever the queue, the memory
    lock and the API service do, it returns [undefined].  When the queue
    rejects the task, or the block has to be fetched and fetching it
    fails, the error is logged and the worker, its fetched-block map
    included, is left unchanged, so no entry for [h] is added. *)
Theorem fetchBlock_never_rejects
  (env : FetchEnv) (w : WorkerService) (h : Z) :
  (exists w' logs, fetchBlock env w h = (w', Returned None, logs))
  /\ (forall e,
        queue_rejects env = Some e ->
        fetchBlock env w h
        = (w, Returned None, [LogErrorFetch (Foreign e) h]))
  /\ (forall e,
        queue_rejects env = None ->
        falsy (read w h) = true ->
        fetchBlocks env [h] = inl e ->
        fetchedBlocks (fst (fst (fetchBlock env w h))) = fetchedBlocks w
        /\ exists waited,
             fetchBlock env w h
             = (w, Returned None, waited ++ [LogErrorFetch (Foreign e) h])).
Proof.
  split; [|split].
  - unfold fetchBlock.
    destruct (queue_rejects env) as [e|].
    + eauto.
    + destruct (fetchTask env w h) as [[w' [r|e]] logs]; eauto.
  - intros e He. unfold fetchBlock. rewrite He. reflexivity.
  - intros e Hq Hf He. unfold fetchBlock, fetchTask.
    rewrite Hq, Hf, He. split; [reflexivity|]. eauto.
Qed.

End WorkerProperties.

Lemma processBlock_unavailable_or_rethrow_witness :
  let w : @Worker.WorkerService unit :=
    Worker.mkWorker (<[42 := Worker.Null]> (<[43 := Worker.Content tt]> ∅))
                    false in
  let failing : @Worker.IndexEnv unit unit string :=
    Worker.mkIndexEnv (fun _ => inr [tt]) (fun _ _ => inl "handler failed") in
  Worker.processBlock failing w 42
    = (w, Worker.Returned (Worker.mkResponse None false None),
       [Worker.LogWarn (Worker.BlockUnavailableError 42)])
  /\ snd (fst (Worker.processBlock failing w 43))
     = Worker.Thrown (Worker.Foreign "handler failed")
  /\ snd (fst (Worker.processBlock failing w 44))
     = Worker.Thrown (Worker.NotFetched 44).
Proof.
  intros w failing. split; [|split].
  - apply (proj1 (processBlock_unavailable_or_rethrow failing w 42)).
    reflexivity.
  - rewrite (proj1 (proj2 (proj2 (proj2
       (processBlock_unavailable_or_rethrow failing w 43)))) tt [tt]
       "handler failed"); reflexivity.
  - rewrite (proj1 (proj2 (processBlock_unavailable_or_rethrow failing w 44)));
      reflexivity.
Defined.

Lemma fetchBlock_never_rejects_witness :
  let w : @Worker.WorkerService unit := Worker.mkWorker ∅ false in
  let rpc_down : @Worker.FetchEnv unit string :=
    Worker.mkFetchEnv None true (fun _ => inl "rpc unreachable") in
  let queue_full : @Worker.FetchEnv unit string :=
    Worker.mkFetchEnv (Some "queue exceeds max size") false
                      (fun _ => inr [Some tt]) in
  Worker.fetchBlock queue_full w 7
    = (w, Worker.Returned None,
       [Worker.LogErrorFetch (Worker.Foreign "queue exceeds max size") 7])
  /\ Worker.fetchedBlocks (fst (fst (Worker.fetchBlock rpc_down w 7)))
     = Worker.fetchedBlocks w.
Proof.
  intros w rpc_down queue_full. split.
  - apply (proj1 (proj2 (fetchBlock_never_rejects queue_full w 7))).
    reflexivity.
  - apply (proj2 (proj2 (fetchBlock_never_rejects rpc_down w 7))
             "rpc unreachable"); reflexivity.
Defined.

(** ** Datasources at a height *)

Section DataSources.

(** C3 (as the code has it).  [getAllDataSources(h)] returns, in order,
    the project's datasources and then the dynamic datasources, each kind
    restricted to those whose [startBlock] is defined and at most [h]:
    the start-block test applies to static and dynamic datasources
    alike. *)
Theorem getAllDataSources_started
  (dataSources dynamicDs : list SubqlProjectDs) (h : Z) :
  getAllDataSources dataSources dynamicDs h
  = List.filter (starts_by h) dataSources
    ++ List.filter (starts_by h) dynamicDs
  /\ forall ds,
       In ds (getAllDataSources dataSources dynamicDs h)
       <-> (In ds dataSources \/ In ds dynamicDs)
           /\ exists s, startBlock ds = Some s /\ s <= h.
Proof.
  unfold getAllDataSources. split; [apply List.filter_app|].
  intros ds. rewrite List.filter_In, List.in_app_iff.
  unfold starts_by. destruct (startBlock ds) as [s|].
  - rewrite Z.leb_le. split.
    + intros [H1 H2]. split; [assumption|]. exists s. now split.
    + intros [H1 (s' & Hs & Hle)]. inversion Hs. subst. now split.
  - split.
    + intros [_ H]. discriminate.
    + intros [_ (s & Hs & _)]. discriminate.
Qed.

(** C3 as stated fails: a static datasource that starts at height 10 is
    not among the datasources of height 5. *)
Lemma getAllDataSources_drops_late_static :
  let late := mkDs Runtime (Some 10) [] in
  getAllDataSources [late] [] 5 = []
  /\ getAllDataSources [late] [] 5
     <> [late] ++ List.filter (starts_by 5) [].
Proof.
  intros late. split; [reflexivity|]. cbn. discriminate.
Qed.

End DataSources.

(** ** Arrays of heights *)

Section Arrays.

Lemma Math_max_spec (l : list Z) :
  l <> [] ->
  exists m, Math_max l = Num m /\ In m l /\ forall x, In x l -> x <= m.
Proof.
  induction l as [|a l IH]; [congruence|]. intros _.
  destruct l as [|b l'].
  - exists a. cbn. split; [reflexivity|]. split; [now left|].
    intros x [->|[]]. lia.
  - destruct IH as (m & Hm & Hin & Hmax); [discriminate|].
    exists (Z.max a m). cbn [Math_max] in *. rewrite Hm.
    split; [reflexivity|]. split.
    + destruct (Z.max_spec a m) as [[_ ->]|[_ ->]];
        [right; assumption | now left].
    + intros x [->|Hx]; [lia|]. specialize (Hmax x Hx). lia.
Qed.

Lemma Math_max_intro (l : list Z) (m : Z) :
  In m l -> (forall x, In x l -> x <= m) -> Math_max l = Num m.
Proof.
  intros Hin Hmax.
  destruct (Math_max_spec l) as (m' & Hm' & Hin' & Hmax').
  - intros ->. contradiction.
  - rewrite Hm'. f_equal.
    specialize (Hmax m' Hin'). specialize (Hmax' m Hin). lia.
Qed.

Lemma without_In (xs ys : list Z) (x : Z) :
  In x (without xs ys) <-> In x xs /\ ~ In x ys.
Proof.
  unfold without. rewrite List.filter_In, negb_true_iff.
  split; intros [H1 H2]; split; try assumption.
  - intros Hy. enough (existsb (Z.eqb x) ys = true) by congruence.
    apply existsb_exists. exists x. split; [assumption | apply Z.eqb_refl].
  - destruct (existsb (Z.eqb x) ys) eqn:E; [|reflexivity].
    apply existsb_exists in E as (y & Hy & Heq).
    apply Z.eqb_eq in Heq. subst. contradiction.
Qed.

Lemma insert_asc_Permutation (x : Z) (l : list Z) :
  Permutation (insert_asc x l) (x :: l).
Proof.
  induction l as [|y l IH]; cbn; [reflexivity|].
  destruct (x <=? y); [reflexivity|].
  rewrite IH. apply perm_swap.
Qed.

Lemma sort_asc_Permutation (l : list Z) : Permutation (sort_asc l) l.
Proof.
  induction l as [|x l IH]; cbn; [reflexivity|].
  rewrite insert_asc_Permutation. now apply perm_skip.
Qed.

Lemma insert_asc_Sorted (x : Z) (l : list Z) :
  Sorted Z.le l -> Sorted Z.le (insert_asc x l).
Proof.
  induction l as [|y l IH]; cbn; intros Hs.
  - repeat constructor.
  - destruct (Z.leb_spec x y) as [Hle|Hgt].
    + constructor; [assumption|]. now constructor.
    + apply Sorted_inv in Hs as [Hs Hhd]. constructor; [now apply IH|].
      destruct l as [|z l]; cbn.
      * constructor. lia.
      * destruct (Z.leb_spec x z); constructor; [lia|].
        now inversion Hhd.
Qed.

Lemma sort_asc_Sorted (l : list Z) : Sorted Z.le (sort_asc l).
Proof.
  induction l as [|x l IH]; cbn; [constructor|].
  now apply insert_asc_Sorted.
Qed.

Lemma slice0_firstn {A : Type} (l : list A) (n : Z) :
  0 <= n ->
  slice0 (Z.min (Z.of_nat (length l)) n) l = firstn (Z.to_nat n) l.
Proof.
  intros Hn. unfold slice0.
  destruct (Z.leb_spec 0 (Z.min (Z.of_nat (length l)) n)); [|lia].
  destruct (Z.min_spec (Z.of_nat (length l)) n) as [[Hlt ->]|[Hge ->]].
  - rewrite Nat2Z.id, List.firstn_all. symmetry.
    apply List.firstn_all2. lia.
  - reflexivity.
Qed.

End Arrays.

(** ** Bypass blocks *)

Section Bypass.

Import Fetch.

Lemma cleanedBatchBlocks_In (bypass raw : list Z) (h : Z) :
  In h (cleanedBatchBlocks bypass raw) <-> In h raw /\ ~ In h bypass.
Proof.
  unfold cleanedBatchBlocks. rewrite without_In, List.filter_In.
  split; intros [Hraw Hn]; split; try assumption.
  - intros Hb. apply Hn. split; [assumption|].
    destruct (Math_max_spec raw) as (m & Hm & _ & Hmax).
    + intros ->. contradiction.
    + rewrite Hm. cbn. specialize (Hmax h Hraw).
      destruct (Z.ltb_spec m h); [lia | reflexivity].
  - intros [Hb _]. contradiction.
Qed.

Lemma filteredBlockBatch_In (fs : FetchService) (raw : list Z) (h : Z) :
  In h (fst (fst (filteredBlockBatch fs raw)))
  <-> In h raw /\ ~ In h (bypassBlocks fs).
Proof.
  unfold filteredBlockBatch. destruct (bypassBlocks fs) as [|b bs] eqn:E.
  - cbn. tauto.
  - cbn [fst]. apply cleanedBatchBlocks_In.
Qed.

(** One call of [filteredBlockBatch] and [getLatestBufferHeight]: for a
    non-empty raw batch and the bypass list [B] held when the batch is
    filtered, no height of the cleaned batch is in [B] (the
    cleaned batch is the raw batch without the members of [B]), and the
    latest buffered height passed to the dispatcher is the maximum of
    the raw batch. *)
Theorem filteredBlockBatch_bypass (fs : FetchService) (raw : list Z) :
  raw <> [] ->
  let cleaned := fst (fst (filteredBlockBatch fs raw)) in
  (forall h, In h cleaned -> ~ In h (bypassBlocks fs))
  /\ (forall h, In h cleaned <-> In h raw /\ ~ In h (bypassBlocks fs))
  /\ getLatestBufferHeight cleaned raw = Math_max raw
  /\ exists m,
       getLatestBufferHeight cleaned raw = Num m
       /\ In m raw /\ forall x, In x raw -> x <= m.
Proof.
  intros Hraw cleaned.
  assert (Hin : forall h,
             In h cleaned <-> In h raw /\ ~ In h (bypassBlocks fs))
    by (intros h; apply filteredBlockBatch_In).
  destruct (Math_max_spec raw Hraw) as (m & Hm & Hmin & Hmax).
  assert (Hlatest : getLatestBufferHeight cleaned raw = Num m).
  { unfold getLatestBufferHeight. apply Math_max_intro.
    - apply List.in_or_app. now right.
    - intros x Hx. apply List.in_app_or in Hx as [Hx|Hx].
      + apply Hmax. now apply Hin in Hx.
      + now apply Hmax. }
  split; [intros h Hh; now apply Hin in Hh|].
  split; [exact Hin|]. split; [congruence|]. exists m. auto.
Qed.

Lemma dictionaryValidation_bypassBlocks
  project dictionaryService apiGenesisHash fs d dictionary start :
  bypassBlocks
    (snd (fst (dictionaryValidation project dictionaryService
                 apiGenesisHash fs d dictionary start)))
  = bypassBlocks fs.
Proof.
  unfold dictionaryValidation.
  destruct dictionary as [metaData|]; [|reflexivity].
  destruct (negb _); [reflexivity|].
  destruct start as [s|]; [|reflexivity].
  destruct (_ <? _); reflexivity.
Qed.

Lemma enqueue_without_dictionary_avoids_bypass
  nodeConfig project fs start scaled emitted heights :
  enqueued
    (fst (fst (enqueue_without_dictionary nodeConfig project
                 fs start scaled emitted))) = Some heights ->
  forall h, In h heights -> ~ In h (bypassBlocks fs).
Proof.
  unfold enqueue_without_dictionary.
  match goal with
  | |- context [filteredBlockBatch fs ?raw] =>
      pose proof (fun h => proj1 (filteredBlockBatch_In fs raw h)) as H;
      destruct (filteredBlockBatch fs raw) as [[c fs'] l]
  end.
  cbn in *. intros [= <-] h Hh. now apply H in Hh.
Qed.

Lemma enqueue_from_dictionary_avoids_bypass
  project fs after start d emitted heights :
  enqueued
    (fst (fst (enqueue_from_dictionary project fs after start d emitted)))
  = Some heights ->
  forall h, In h heights -> ~ In h (bypassBlocks fs).
Proof.
  unfold enqueue_from_dictionary.
  destruct (sort_asc _) as [|x merged].
  - cbn. intros [= <-] h [].
  - match goal with
    | |- context [filteredBlockBatch fs ?raw] =>
        pose proof (fun h => proj1 (filteredBlockBatch_In fs raw h)) as H;
        destruct (filteredBlockBatch fs raw) as [[c fs'] l]
    end.
    cbn in *. intros [= <-] h Hh. now apply H in Hh.
Qed.

(** X26.  Whatever path a pass takes, the heights it enqueues avoid the bypass
    list the service held when the pass started. *)
Lemma scan_enqueued_avoids_bypass
  nodeConfig project dictionaryService apiGenesisHash initBlockHeight
  fs before reply after heights :
  enqueued
    (fst (fst (scan nodeConfig project dictionaryService apiGenesisHash
                 initBlockHeight fs before reply after))) = Some heights ->
  forall h, In h heights -> ~ In h (bypassBlocks fs).
Proof.
  unfold scan.
  destruct (_ || _); [discriminate|].
  destruct (_ && _);
    [|apply enqueue_without_dictionary_avoids_bypass].
  destruct reply as [| |d].
  - apply enqueue_without_dictionary_avoids_bypass.
  - destruct (negb _); [discriminate|].
    apply enqueue_without_dictionary_avoids_bypass.
  - destruct (negb _); [discriminate|].
    pose proof (dictionaryValidation_bypassBlocks project
                  dictionaryService apiGenesisHash fs after
                  (Some (_metadata d))
                  (Some (getStartBlockHeight initBlockHeight before)))
      as Hb.
    destruct (dictionaryValidation _ _ _ fs after _ _) as [[valid fs'] em].
    cbn [fst snd] in Hb. rewrite <- Hb. destruct valid.
    + apply enqueue_from_dictionary_avoids_bypass.
    + apply enqueue_without_dictionary_avoids_bypass.
Qed.

End Bypass.

Lemma filteredBlockBatch_bypass_witness :
  let fs := Fetch.mkFetchService None (Some 100) false 1 [] true [12] in
  let cleaned := fst (fst (Fetch.filteredBlockBatch fs [10; 11; 12; 13; 14])) in
  cleaned = [10; 11; 13; 14]
  /\ (forall h, In h cleaned -> ~ In h [12])
  /\ Fetch.getLatestBufferHeight cleaned [10; 11; 12; 13; 14] = Num 14.
Proof.
  intros fs cleaned.
  destruct (filteredBlockBatch_bypass fs [10; 11; 12; 13; 14])
    as (Hdisjoint & _ & Hmax & _); [discriminate|].
  split; [reflexivity|]. split; [exact Hdisjoint|]. exact Hmax.
Defined.

(** ** The dictionary flag *)

Section DictionaryFlag.

Import Fetch.

Variable nodeConfig : NodeConfig.
Variable project : SubqueryProject.
Variable apiGenesisHash : string.
Variable initBlockHeight : Z.

Lemma useDictionary_needs_flag dictionaryService fs d :
  dictionaryGenesisMatches fs = false ->
  useDictionary project dictionaryService fs d = false.
Proof.
  intros H. unfold useDictionary. rewrite H.
  now rewrite andb_false_r.
Qed.

Lemma dictionaryValidation_flag dictionaryService fs d dictionary start :
  dictionaryGenesisMatches fs = false ->
  dictionaryGenesisMatches
    (snd (fst (dictionaryValidation project dictionaryService
                 apiGenesisHash fs d dictionary start))) = false.
Proof.
  intros H. unfold dictionaryValidation.
  destruct dictionary as [metaData|]; [|exact H].
  destruct (negb _); [reflexivity|].
  destruct start as [s|]; [|exact H].
  destruct (_ <? _); exact H.
Qed.

Lemma filteredBlockBatch_flag fs raw :
  dictionaryGenesisMatches (snd (fst (filteredBlockBatch fs raw)))
  = dictionaryGenesisMatches fs.
Proof.
  unfold filteredBlockBatch. now destruct (bypassBlocks fs).
Qed.

Lemma enqueue_without_dictionary_flag fs start scaled emitted :
  dictionaryGenesisMatches
    (snd (fst (enqueue_without_dictionary nodeConfig project
                 fs start scaled emitted)))
  = dictionaryGenesisMatches fs.
Proof.
  unfold enqueue_without_dictionary.
  match goal with
  | |- context [filteredBlockBatch fs ?raw] =>
      pose proof (filteredBlockBatch_flag fs raw) as H;
      destruct (filteredBlockBatch fs raw) as [[c fs'] l]
  end.
  exact H.
Qed.

Lemma enqueue_from_dictionary_flag fs after start d emitted :
  dictionaryGenesisMatches
    (snd (fst (enqueue_from_dictionary project fs after start d emitted)))
  = dictionaryGenesisMatches fs.
Proof.
  unfold enqueue_from_dictionary.
  destruct (sort_asc _) as [|x merged]; [reflexivity|].
  match goal with
  | |- context [filteredBlockBatch fs ?raw] =>
      pose proof (filteredBlockBatch_flag fs raw) as H;
      destruct (filteredBlockBatch fs raw) as [[c fs'] l]
  end.
  exact H.
Qed.

Lemma scan_flag dictionaryService fs before reply after :
  dictionaryGenesisMatches fs = false ->
  dictionaryGenesisMatches
    (snd (fst (scan nodeConfig project dictionaryService apiGenesisHash
                 initBlockHeight fs before reply after))) = false.
Proof.
  intros H. unfold scan.
  destruct (_ || _); [exact H|].
  destruct (_ && _);
    [|now rewrite enqueue_without_dictionary_flag].
  destruct reply as [| |d].
  - now rewrite enqueue_without_dictionary_flag.
  - destruct (negb _); [exact H|].
    now rewrite enqueue_without_dictionary_flag.
  - destruct (negb _); [exact H|].
    pose proof (dictionaryValidation_flag dictionaryService fs after
                  (Some (_metadata d))
                  (Some (getStartBlockHeight initBlockHeight before)) H)
      as Hv.
    destruct (dictionaryValidation _ _ _ fs after _ _) as [[valid fs'] em].
    cbn [fst snd] in Hv. destruct valid.
    + now rewrite enqueue_from_dictionary_flag.
    + now rewrite enqueue_without_dictionary_flag.
Qed.

Lemma step_flag fs fs' :
  step nodeConfig project apiGenesisHash initBlockHeight fs fs' ->
  dictionaryGenesisMatches fs = false ->
  dictionaryGenesisMatches fs' = false.
Proof.
  intros Hstep H. destruct Hstep; try exact H.
  - now apply dictionaryValidation_flag.
  - now apply scan_flag.
Qed.

Lemma session_flag fs fs' :
  rtc (step nodeConfig project apiGenesisHash initBlockHeight) fs fs' ->
  dictionaryGenesisMatches fs = false ->
  dictionaryGenesisMatches fs' = false.
Proof.
  induction 1 as [|fs fs1 fs2 Hstep _ IH]; [trivial|].
  intros H. apply IH. exact (step_flag _ _ Hstep H).
Qed.

(** C5.  Once a dictionary response whose [genesisHash] differs from the
    genesis hash of the API has been validated, the validation itself
    answers false, and [useDictionary] is false in the state it leaves
    and in every state the service reaches afterwards, whatever the
    dictionary service and the dispatcher hold by then. *)
Theorem genesis_mismatch_disables_dictionary
  dictionaryService fs d (metaData : MetaData) start fs' :
  genesisHash metaData <> apiGenesisHash ->
  rtc (step nodeConfig project apiGenesisHash initBlockHeight)
      (snd (fst (dictionaryValidation project dictionaryService
                   apiGenesisHash fs d (Some metaData) start)))
      fs' ->
  fst (fst (dictionaryValidation project dictionaryService
              apiGenesisHash fs d (Some metaData) start)) = false
  /\ forall dictionaryService' d',
       useDictionary project dictionaryService' fs' d' = false.
Proof.
  intros Hne Hreach.
  apply String.eqb_neq in Hne.
  unfold dictionaryValidation in *. rewrite Hne in *. cbn [negb fst snd] in *.
  split; [reflexivity|].
  intros ds' d'. apply useDictionary_needs_flag.
  now apply (session_flag _ _ Hreach).
Qed.

End DictionaryFlag.

Lemma genesis_mismatch_disables_dictionary_witness :
  let project :=
    Fetch.mkProject (Some "https://dictionary.example")
      [mkDs Runtime (Some 1)
         [mkHandler (Base Transaction)
            (Some (TransactionFilter (Some "alice.near") None))]] in
  let service := Fetch.mkDictionaryService (Some 1) (fun _ => 1%nat) in
  let dispatcher := Fetch.mkDispatcher None 10 in
  let fs := Fetch.mkFetchService None (Some 100) false 1 [] true [] in
  let foreign := Fetch.mkMetaData 50 "genesis-B" "testnet" 1 in
  let fs1 :=
    snd (fst (Fetch.dictionaryValidation project service "genesis-A"
                fs dispatcher (Some foreign) (Some 1))) in
  Fetch.useDictionary project service fs dispatcher = true
  /\ Fetch.useDictionary project service
       (Fetch.set_latestFinalizedHeight 101 fs1) dispatcher = false.
Proof.
  intros project service dispatcher fs foreign fs1.
  split; [reflexivity|].
  apply (genesis_mismatch_disables_dictionary (Fetch.mkConfig 10 false)
           project "genesis-A" 1 service fs dispatcher foreign (Some 1)).
  - discriminate.
  - apply rtc_once. apply Fetch.step_getFinalizedBlockHead.
Defined.

(** ** The dictionary path of a pass *)

Section DictionaryPath.

Import Fetch.

Variable nodeConfig : NodeConfig.
Variable project : SubqueryProject.
Variable dictionaryService : DictionaryService.
Variable apiGenesisHash : string.
Variable initBlockHeight : Z.

Lemma slice0_nil {A : Type} (n : Z) : slice0 n (@nil A) = [].
Proof. unfold slice0. destruct (0 <=? n); apply List.firstn_nil. Qed.

Lemma filteredBlockBatch_nil (fs : FetchService) :
  fst (fst (filteredBlockBatch fs [])) = [].
Proof. unfold filteredBlockBatch. now destruct (bypassBlocks fs). Qed.

Lemma filteredBlockBatch_no_bypass (fs : FetchService) (raw : list Z) :
  bypassBlocks fs = [] -> fst (fst (filteredBlockBatch fs raw)) = raw.
Proof. intros H. unfold filteredBlockBatch. now rewrite H. Qed.

(** The dictionary path as the code runs it.  In a pass that takes it
    (the dispatcher has room, the start height is within the target, the
    dictionary is in use and covers the start height, the queue was not
    reset while the query ran, and the answer passes validation), the
    merged list is the ascending arrangement of the dictionary's
    [batchBlocks] followed by the modulo blocks of the queried range,
    with every duplicate kept; it is cut to the first
    [min(length, freeSize)] heights, and the heights enqueued are that
    cut with the bypass blocks removed (the cut itself when the bypass
    list is empty). *)
Theorem scan_dictionary_merge
  (fs : FetchService) (before after : BlockDispatcher) (d : Dictionary) :
  let start := getStartBlockHeight initBlockHeight before in
  let moduloBlocks :=
    getModuloBlocks project start (start + DICTIONARY_MAX_QUERY_SIZE) in
  let merged := sort_asc (batchBlocks d ++ moduloBlocks) in
  let cut :=
    slice0 (Z.min (Z.of_nat (length merged)) (freeSize after)) merged in
  (freeSize before <? scaledBatchSize nodeConfig fs)
    || gt_undef start
         (if unfinalizedBlocks nodeConfig then latestBestHeight fs
          else latestFinalizedHeight fs) = false ->
  useDictionary project dictionaryService fs before
    && ge_undef start (startHeight dictionaryService) = true ->
  getStartBlockHeight initBlockHeight after = start ->
  genesisHash (_metadata d) = apiGenesisHash ->
  start <= lastProcessedHeight (_metadata d) ->
  Sorted Z.le merged
  /\ Permutation merged (batchBlocks d ++ moduloBlocks)
  /\ (0 <= freeSize after ->
        cut = firstn (Z.to_nat (freeSize after)) merged)
  /\ enqueued
       (fst (fst (scan nodeConfig project dictionaryService apiGenesisHash
                    initBlockHeight fs before (QueryResult d) after)))
     = Some (fst (fst (filteredBlockBatch fs cut)))
  /\ (bypassBlocks fs = [] ->
        enqueued
          (fst (fst (scan nodeConfig project dictionaryService
                       apiGenesisHash initBlockHeight
                       fs before (QueryResult d) after)))
        = Some cut).
Proof.
  intros start moduloBlocks merged cut Hroom Huse Hsame Hgen Hlast.
  split; [apply sort_asc_Sorted|].
  split; [apply sort_asc_Permutation|].
  split; [intros Hfree; now apply slice0_firstn|].
  assert (Hscan :
    enqueued
      (fst (fst (scan nodeConfig project dictionaryService apiGenesisHash
                   initBlockHeight fs before (QueryResult d) after)))
    = Some (fst (fst (filteredBlockBatch fs cut)))).
  { unfold scan. cbv zeta. fold start. rewrite Hroom, Huse, Hsame.
    rewrite Z.eqb_refl. cbn [negb].
    unfold dictionaryValidation. rewrite Hgen, String.eqb_refl.
    cbn [negb].
    destruct (Z.ltb_spec (lastProcessedHeight (_metadata d)) start);
      [lia|].
    unfold enqueue_from_dictionary. fold moduloBlocks. fold merged.
    subst cut. destruct merged as [|x rest] eqn:Em.
    - cbn [enqueued fst]. rewrite slice0_nil.
      now rewrite filteredBlockBatch_nil.
    - destruct (filteredBlockBatch fs _) as [[cleaned fs'] logged].
      reflexivity. }
  split; [exact Hscan|].
  intros Hb. rewrite Hscan. now rewrite filteredBlockBatch_no_bypass.
Qed.

End DictionaryPath.

Lemma scan_dictionary_merge_witness :
  let project :=
    Fetch.mkProject (Some "https://dictionary.example")
      [mkDs Runtime (Some 1000)
         [mkHandler (Base Block)
            (Some (BlockFilter (mkBlockFilter (Some 100) None)));
          mkHandler (Base Transaction)
            (Some (TransactionFilter (Some "alice.near") None))]] in
  let service := Fetch.mkDictionaryService (Some 1) (fun _ => 1%nat) in
  let fs := Fetch.mkFetchService None (Some 20000) false 1 [] true [] in
  let dispatcher := Fetch.mkDispatcher None 10 in
  let answer :=
    Fetch.mkDictionary [1050; 1010]
      (Fetch.mkMetaData 20000 "genesis-A" "mainnet" 1) in
  Fetch.enqueued
    (fst (fst (Fetch.scan (Fetch.mkConfig 10 false) project service
                 "genesis-A" 1000 fs dispatcher
                 (Fetch.QueryResult answer) dispatcher)))
  = Some [1000; 1010; 1050; 1100; 1200; 1300; 1400; 1500; 1600; 1700].
Proof.
  intros project service fs dispatcher answer.
  refine (eq_trans
            (proj2 (proj2 (proj2 (proj2
               (scan_dictionary_merge (Fetch.mkConfig 10 false) project
                  service "genesis-A" 1000 fs dispatcher dispatcher answer
                  _ _ _ _ _)))) _) _).
  - vm_compute. reflexivity.
  - vm_compute. reflexivity.
  - reflexivity.
  - reflexivity.
  - vm_compute. discriminate.
  - reflexivity.
  - vm_compute. reflexivity.
Defined.

(** C1 (what the code does).  The dictionary reports heights 1000 and
    1050, the block handler's modulo 100 reports 1000 as well, and the
    pass enqueues height 1000 twice: the merged list is not the
    duplicate-free union the claim describes, which would have had room
    for height 1800. *)
Lemma scan_dictionary_keeps_duplicates :
  let project :=
    Fetch.mkProject (Some "https://dictionary.example")
      [mkDs Runtime (Some 1000)
         [mkHandler (Base Block)
            (Some (BlockFilter (mkBlockFilter (Some 100) None)));
          mkHandler (Base Transaction)
            (Some (TransactionFilter (Some "alice.near") None))]] in
  let service := Fetch.mkDictionaryService (Some 1) (fun _ => 1%nat) in
  let fs := Fetch.mkFetchService None (Some 20000) false 1 [] true [] in
  let dispatcher := Fetch.mkDispatcher None 10 in
  let answer :=
    Fetch.mkDictionary [1000; 1050]
      (Fetch.mkMetaData 20000 "genesis-A" "mainnet" 1) in
  let enqueued :=
    Fetch.enqueued
      (fst (fst (Fetch.scan (Fetch.mkConfig 10 false) project service
                   "genesis-A" 1000 fs dispatcher
                   (Fetch.QueryResult answer) dispatcher))) in
  enqueued
    = Some [1000; 1000; 1050; 1100; 1200; 1300; 1400; 1500; 1600; 1700]
  /\ enqueued
     <> Some (firstn (Z.to_nat (Fetch.freeSize dispatcher))
                (sort_asc
                   (nodup Z.eq_dec
                      (Fetch.batchBlocks answer
                       ++ Fetch.getModuloBlocks project 1000
                            (1000 + Fetch.DICTIONARY_MAX_QUERY_SIZE))))).
Proof.
  intros project service fs dispatcher answer enqueued.
  split; [vm_compute; reflexivity|].
  vm_compute. discriminate.
Qed.

(** ** The modulo-only path of a pass *)

Section ModuloOnly.

Import Fetch.

(** In the modulo-only branch the heights come from
    [getEnqueuedModuloBlocks] alone: neither chain head of the service
    is consulted. *)
Lemma modulo_only_ignores_chain_head
  nodeConfig project (fs : FetchService) start scaled emitted best final :
  negb (Nat.eqb (length (all_handlers project)) 0)
    && Nat.eqb (length (getModulos project))
               (length (all_handlers project)) = true ->
  enqueued
    (fst (fst (enqueue_without_dictionary nodeConfig project
                 (mkFetchService best final (isShutdown fs)
                    (batchSizeScale fs) (templateDynamicDatasouces fs)
                    (dictionaryGenesisMatches fs) (bypassBlocks fs))
                 start scaled emitted)))
  = Some (fst (fst (filteredBlockBatch fs
                      (getEnqueuedModuloBlocks nodeConfig project start)))).
Proof.
  intros Hm. unfold enqueue_without_dictionary. rewrite Hm.
  unfold filteredBlockBatch. cbn [bypassBlocks].
  destruct (bypassBlocks fs); reflexivity.
Qed.

(** C2 (what the code does).  With a batch size of 7 the first pass of
    the modulo-only scenario enqueues seven heights, the last of which,
    1600, lies beyond the finalized head 1500, and reports 1600 as the
    latest buffered height. *)
Theorem modulo_only_scan_overshoots_head
  dictionaryService apiGenesisHash reply after :
  scan (mkConfig 7 false) every_hundredth dictionaryService apiGenesisHash
       1000 head_at_1500 (mkDispatcher None 7) reply after
  = (Enqueue [1000; 1100; 1200; 1300; 1400; 1500; 1600] (Num 1600),
     head_at_1500, [])
  /\ latestFinalizedHeight head_at_1500 = Some 1500
  /\ 1500 < 1600.
Proof.
  split; [|split; [reflexivity | lia]].
  vm_compute. reflexivity.
Qed.

(** The list of the scenario is what the pass enqueues when the batch
    size happens to be 6. *)
Lemma modulo_only_scan_batch_of_six
  dictionaryService apiGenesisHash reply after :
  scan (mkConfig 6 false) every_hundredth dictionaryService apiGenesisHash
       1000 head_at_1500 (mkDispatcher None 6) reply after
  = (Enqueue [1000; 1100; 1200; 1300; 1400; 1500] (Num 1500),
     head_at_1500, []).
Proof. vm_compute. reflexivity. Qed.

End ModuloOnly.

(** * Further properties of the scheduler *)

(** ** Ranges of heights *)

Section Ranges.

Lemma range_In (a b h : Z) : In h (range a b) <-> a <= h < b.
Proof.
  unfold range. rewrite List.in_map_iff. split.
  - intros (k & <- & Hk). apply List.in_seq in Hk. lia.
  - intros Hh. exists (Z.to_nat (h - a)). split; [lia|].
    apply List.in_seq. lia.
Qed.

Lemma map_seq_from (a : Z) (n m : nat) :
  map (fun k => a + Z.of_nat k) (seq n m)
  = map (fun k => a + Z.of_nat n + Z.of_nat k) (seq 0 m).
Proof.
  revert n. induction m as [|m IH]; intros n; [reflexivity|].
  cbn [seq map]. f_equal; [lia|].
  rewrite IH, <- List.seq_shift, List.map_map.
  apply List.map_ext. intros k. lia.
Qed.

Lemma range_split (a b c : Z) :
  a <= b -> b <= c -> range a c = range a b ++ range b c.
Proof.
  intros Hab Hbc. unfold range.
  replace (Z.to_nat (c - a)) with (Z.to_nat (b - a) + Z.to_nat (c - b))%nat
    by lia.
  rewrite List.seq_app, List.map_app. f_equal.
  cbn [Nat.add]. rewrite map_seq_from.
  apply List.map_ext. intros k. lia.
Qed.

Lemma range_StronglySorted (a b : Z) : StronglySorted Z.lt (range a b).
Proof.
  unfold range. generalize (Z.to_nat (b - a)) as n. intros n.
  assert (H : forall m, StronglySorted Z.lt
                (map (fun k => a + Z.of_nat k) (seq m n))).
  { induction n as [|n IH]; intros m; cbn; constructor.
    - apply IH.
    - apply List.Forall_forall. intros x Hx.
      apply List.in_map_iff in Hx as (k & <- & Hk).
      apply List.in_seq in Hk. lia. }
  apply H.
Qed.

Lemma filter_StronglySorted {A : Type} (R : A -> A -> Prop) (p : A -> bool)
  (l : list A) :
  StronglySorted R l -> StronglySorted R (List.filter p l).
Proof.
  induction 1 as [|x l Hs IH Hall]; cbn; [constructor|].
  destruct (p x); [|assumption]. constructor; [assumption|].
  rewrite List.Forall_forall in *. intros y Hy.
  apply List.filter_In in Hy as [Hy _]. now apply Hall.
Qed.

Lemma firstn_incl {A : Type} (n : nat) (l : list A) (x : A) :
  In x (firstn n l) -> In x l.
Proof.
  intros H. rewrite <- (List.firstn_skipn n l).
  apply List.in_or_app. now left.
Qed.

Lemma firstn_StronglySorted {A : Type} (R : A -> A -> Prop) (n : nat)
  (l : list A) :
  StronglySorted R l -> StronglySorted R (firstn n l).
Proof.
  intros Hs. revert n. induction Hs as [|x l Hs IH Hall]; intros [|n]; cbn;
    try constructor.
  - apply IH.
  - rewrite List.Forall_forall in *. intros y Hy.
    apply Hall. eapply firstn_incl; eassumption.
Qed.

Lemma slice0_In {A : Type} (n : Z) (l : list A) (x : A) :
  In x (slice0 n l) -> In x l.
Proof.
  unfold slice0. destruct (0 <=? n); intros H;
    eapply firstn_incl; eassumption.
Qed.

Lemma slice0_StronglySorted {A : Type} (R : A -> A -> Prop) (n : Z)
  (l : list A) :
  StronglySorted R l -> StronglySorted R (slice0 n l).
Proof.
  intros Hs. unfold slice0. destruct (0 <=? n);
    now apply firstn_StronglySorted.
Qed.

End Ranges.

(** ** Modulo blocks *)

Section ModuloBlocks.

Import Fetch.

Variable nodeConfig : NodeConfig.
Variable project : SubqueryProject.

(** X1.  [getModulos] collects exactly the non-zero [modulo] of every block
    handler of every runtime datasource of the project: custom
    datasources, handlers of another kind, handlers without a filter and a
    [modulo] of zero contribute nothing. *)
Theorem getModulos_runtime_block_handlers (m : Z) :
  In m (getModulos project)
  <-> exists ds h f,
        In ds (dataSources project) /\ isCustomDs ds = false
        /\ In h (handlers ds) /\ kind h = Base Block
        /\ filter h = Some (BlockFilter f)
        /\ modulo f = Some m /\ m <> 0.
Proof.
  unfold getModulos. rewrite List.in_flat_map. split.
  - intros (ds & Hds & Hm). destruct (isCustomDs ds) eqn:Ec; [destruct Hm|].
    apply List.in_flat_map in Hm as (h & Hh & Hm).
    unfold handler_modulo in Hm.
    destruct (kind h) as [[| |]|] eqn:Ek; try destruct Hm.
    destruct (filter h) as [[f| | |]|] eqn:Ef; try destruct Hm.
    destruct (modulo f) as [m'|] eqn:Em; [|destruct Hm].
    destruct (Z.eqb_spec m' 0); [destruct Hm|].
    destruct Hm as [<-|[]]. exists ds, h, f. auto 10.
  - intros (ds & h & f & Hds & Ec & Hh & Ek & Ef & Em & Hne).
    exists ds. split; [assumption|]. rewrite Ec.
    apply List.in_flat_map. exists h. split; [assumption|].
    unfold handler_modulo. rewrite Ek, Ef, Em.
    destruct (Z.eqb_spec m 0); [contradiction|]. now left.
Qed.

Lemma handler_modulo_nonzero (h : NearHandler) (m : Z) :
  In m (handler_modulo h) -> m <> 0.
Proof.
  unfold handler_modulo.
  destruct (kind h) as [[| |]|]; try (intros []).
  destruct (filter h) as [[f| | |]|]; try (intros []).
  destruct (modulo f) as [m'|]; [|intros []].
  destruct (Z.eqb_spec m' 0); [intros []|].
  intros [<-|[]]. assumption.
Qed.

Lemma getModulos_nonzero (m : Z) : In m (getModulos project) -> m <> 0.
Proof.
  unfold getModulos. rewrite List.in_flat_map.
  intros (ds & _ & Hm). destruct (isCustomDs ds); [destruct Hm|].
  apply List.in_flat_map in Hm as (h & _ & Hm).
  exact (handler_modulo_nonzero h m Hm).
Qed.

Lemma modulo_test (i : Z) :
  match List.find (fun m => rem_is_zero i m) (getModulos project) with
  | Some m => negb (m =? 0)
  | None => false
  end = true
  <-> exists m, In m (getModulos project) /\ Z.rem i m = 0.
Proof.
  destruct (List.find _ _) as [m|] eqn:E.
  - apply List.find_some in E as [Hin Hr]. unfold rem_is_zero in Hr.
    destruct (Z.eqb_spec m 0); [discriminate|]. cbn. split; [|reflexivity].
    intros _. exists m. split; [assumption|]. now apply Z.eqb_eq.
  - split; [discriminate|]. intros (m & Hin & Hr).
    pose proof (List.find_none _ _ E m Hin) as Hf. cbn beta in Hf.
    unfold rem_is_zero in Hf. pose proof (getModulos_nonzero m Hin).
    destruct (Z.eqb_spec m 0); [contradiction|].
    apply Z.eqb_neq in Hf. contradiction.
Qed.

Lemma getModuloBlocks_In (startHeight endHeight h : Z) :
  In h (getModuloBlocks project startHeight endHeight)
  <-> startHeight <= h < endHeight
      /\ exists m, In m (getModulos project) /\ Z.rem h m = 0.
Proof.
  unfold getModuloBlocks.
  rewrite List.filter_In, range_In, modulo_test. tauto.
Qed.

Lemma getModuloBlocks_StronglySorted (startHeight endHeight : Z) :
  StronglySorted Z.lt (getModuloBlocks project startHeight endHeight).
Proof.
  unfold getModuloBlocks.
  apply filter_StronglySorted, range_StronglySorted.
Qed.

(** X2.  [getModuloBlocks(start, end)] is the strictly ascending list of the
    heights [h] with [start <= h < end] that some collected modulo
    divides ([h % m === 0]); it is empty when [end <= start]. *)
Theorem getModuloBlocks_multiples (startHeight endHeight : Z) :
  (forall h,
     In h (getModuloBlocks project startHeight endHeight)
     <-> startHeight <= h < endHeight
         /\ exists m, In m (getModulos project) /\ Z.rem h m = 0)
  /\ StronglySorted Z.lt (getModuloBlocks project startHeight endHeight).
Proof.
  split.
  - intros h. apply getModuloBlocks_In.
  - apply getModuloBlocks_StronglySorted.
Qed.

(** A window of [m] consecutive heights holds a multiple of [m]. *)
Lemma multiple_in_window (a m : Z) :
  0 < m -> exists i, a <= i < a + m /\ Z.rem i m = 0.
Proof.
  intros Hm. exists (a + (- a) mod m). split.
  - pose proof (Z.mod_pos_bound (- a) m Hm). lia.
  - apply Z.rem_divide; [lia|]. apply Z.mod_divide; [lia|].
    rewrite Z.add_mod_idemp_r by lia.
    replace (a + - a) with 0 by lia. apply Z.mod_0_l. lia.
Qed.

Lemma count_multiples (keep : Z -> bool) (m s : Z) (n : nat) :
  0 < m ->
  (forall i, Z.rem i m = 0 -> keep i = true) ->
  (n <= length (List.filter keep (range s (s + Z.of_nat n * m))))%nat.
Proof.
  intros Hm Hkeep. induction n as [|n IH]; [lia|].
  rewrite (range_split s (s + Z.of_nat n * m)) by nia.
  rewrite List.filter_app, List.length_app.
  set (window := List.filter keep
                   (range (s + Z.of_nat n * m) (s + Z.of_nat (S n) * m))).
  enough (1 <= length window)%nat by lia.
  destruct (multiple_in_window (s + Z.of_nat n * m) m Hm) as (i & Hi & Hr).
  assert (Hin : In i window).
  { apply List.filter_In. split; [apply range_In; nia | now apply Hkeep]. }
  destruct window; [destruct Hin | cbn; lia].
Qed.

(** X3.  [getEnqueuedModuloBlocks(start)], for a batch size that is not
    negative: at most [batchSize] heights, strictly ascending, none below
    [start], each a multiple of a collected modulo. *)
Theorem getEnqueuedModuloBlocks_bounds (startBlockHeight : Z) :
  0 <= batchSize nodeConfig ->
  (length (getEnqueuedModuloBlocks nodeConfig project startBlockHeight)
   <= Z.to_nat (batchSize nodeConfig))%nat
  /\ StronglySorted Z.lt
       (getEnqueuedModuloBlocks nodeConfig project startBlockHeight)
  /\ forall h,
       In h (getEnqueuedModuloBlocks nodeConfig project startBlockHeight) ->
       startBlockHeight <= h
       /\ exists m, In m (getModulos project) /\ Z.rem h m = 0.
Proof.
  intros Hb. unfold getEnqueuedModuloBlocks.
  destruct (Math_max (getModulos project)) as [| | |maxModulo];
    try (split; [cbn; lia | split; [constructor | intros h []]]).
  split; [|split].
  - unfold slice0. destruct (Z.leb_spec 0 (batchSize nodeConfig)); [|lia].
    rewrite List.length_firstn. lia.
  - apply slice0_StronglySorted, getModuloBlocks_StronglySorted.
  - intros h Hh. apply slice0_In in Hh.
    apply getModuloBlocks_In in Hh. destruct Hh as [Hr Hm].
    split; [lia | exact Hm].
Qed.

(** X4.  When the largest collected modulo is positive and the batch size is
    not negative, [getEnqueuedModuloBlocks] returns exactly [batchSize]
    heights: the window of [batchSize * max(modulos)] heights always holds
    enough multiples, wherever the chain head is. *)
Theorem getEnqueuedModuloBlocks_full_batch (startBlockHeight maxModulo : Z) :
  Math_max (getModulos project) = Num maxModulo ->
  0 < maxModulo ->
  0 <= batchSize nodeConfig ->
  length (getEnqueuedModuloBlocks nodeConfig project startBlockHeight)
  = Z.to_nat (batchSize nodeConfig).
Proof.
  intros Hmax Hpos Hb. unfold getEnqueuedModuloBlocks. rewrite Hmax.
  unfold slice0. destruct (Z.leb_spec 0 (batchSize nodeConfig)); [|lia].
  rewrite List.length_firstn. apply Nat.min_l.
  unfold getModuloBlocks.
  replace (batchSize nodeConfig * maxModulo + startBlockHeight)
    with (startBlockHeight
          + Z.of_nat (Z.to_nat (batchSize nodeConfig)) * maxModulo) by lia.
  apply count_multiples; [assumption|].
  intros i Hi. apply modulo_test. exists maxModulo. split; [|assumption].
  destruct (Math_max_spec (getModulos project)) as (m & Hm & Hin & _).
  - intros E. rewrite E in Hmax. discriminate.
  - rewrite Hm in Hmax. inversion Hmax. now subst.
Qed.

End ModuloBlocks.

Lemma getEnqueuedModuloBlocks_bounds_witness :
  (length (Fetch.getEnqueuedModuloBlocks (Fetch.mkConfig 3 false)
             Fetch.every_hundredth 950) <= 3)%nat
  /\ forall h,
       In h (Fetch.getEnqueuedModuloBlocks (Fetch.mkConfig 3 false)
               Fetch.every_hundredth 950) ->
       950 <= h.
Proof.
  destruct (getEnqueuedModuloBlocks_bounds (Fetch.mkConfig 3 false)
              Fetch.every_hundredth 950) as (Hlen & _ & Hin).
  - vm_compute. discriminate.
  - split; [exact Hlen|]. intros h Hh. exact (proj1 (Hin h Hh)).
Defined.

Lemma getEnqueuedModuloBlocks_full_batch_witness :
  length (Fetch.getEnqueuedModuloBlocks (Fetch.mkConfig 3 false)
            Fetch.every_hundredth 950) = 3%nat.
Proof.
  apply (getEnqueuedModuloBlocks_full_batch (Fetch.mkConfig 3 false)
           Fetch.every_hundredth 950 100).
  - reflexivity.
  - reflexivity.
  - vm_compute. discriminate.
Defined.

(** ** The end of a range, the bypass list and dictionary validation *)

Section SchedulerHelpers.

Import Fetch.

Variable nodeConfig : NodeConfig.
Variable project : SubqueryProject.
Variable dictionaryService : DictionaryService.
Variable apiGenesisHash : string.

(** X5.  [nextEndBlockHeight] never goes past [start + scaledBatchSize - 1].
    Without unfinalized blocks it is the smaller of that height and the
    finalized head; with unfinalized blocks, and a finalized head that is
    not above the best head, it is the smaller of that height and the best
    head; while no finalized head is known nothing is clamped. *)
Theorem nextEndBlockHeight_clamped (fs : FetchService)
  (startBlockHeight scaled : Z) :
  let full := startBlockHeight + scaled - 1 in
  nextEndBlockHeight nodeConfig fs startBlockHeight scaled <= full
  /\ (forall final,
        unfinalizedBlocks nodeConfig = false ->
        latestFinalizedHeight fs = Some final ->
        nextEndBlockHeight nodeConfig fs startBlockHeight scaled
        = Z.min full final)
  /\ (forall final best,
        unfinalizedBlocks nodeConfig = true ->
        latestFinalizedHeight fs = Some final ->
        latestBestHeight fs = Some best ->
        final <= best ->
        nextEndBlockHeight nodeConfig fs startBlockHeight scaled
        = Z.min full best)
  /\ (latestFinalizedHeight fs = None ->
        nextEndBlockHeight nodeConfig fs startBlockHeight scaled = full).
Proof.
  intros full. unfold nextEndBlockHeight. fold full.
  repeat split.
  - destruct (latestFinalizedHeight fs) as [final|]; cbn; [|lia].
    destruct (Z.gtb_spec full final); [|lia].
    destruct (unfinalizedBlocks nodeConfig); [|lia].
    destruct (latestBestHeight fs) as [best|]; cbn; [|lia].
    destruct (Z.geb_spec full best); lia.
  - intros final Hu Hf. rewrite Hu, Hf. cbn.
    destruct (Z.gtb_spec full final); lia.
  - intros final best Hu Hf Hb Hle. rewrite Hu, Hf, Hb. cbn.
    destruct (Z.gtb_spec full final); [|lia].
    destruct (Z.geb_spec full best); lia.
  - intros Hf. rewrite Hf. reflexivity.
Qed.

Lemma without_filter (p : Z -> bool) (l : list Z) :
  without l (List.filter p l) = List.filter (fun b => negb (p b)) l.
Proof.
  unfold without. apply List.filter_ext_in. intros x Hx. f_equal.
  destruct (p x) eqn:Ep.
  - apply existsb_exists. exists x. split; [|apply Z.eqb_refl].
    apply List.filter_In. now split.
  - destruct (existsb _ _) eqn:E; [|reflexivity].
    apply existsb_exists in E as (y & Hy & Heq).
    apply Z.eqb_eq in Heq. subst y.
    apply List.filter_In in Hy as [_ Hy]. congruence.
Qed.

(** X6.  [filteredBlockBatch] consumes the bypass list: for a batch whose
    maximum is [m], the bypass heights below [m] are dropped and those at
    or above [m] stay, in their order (a bypass height equal to [m] is
    removed from the batch but kept in the list); for an empty batch the
    list is left as it is. *)
Theorem filteredBlockBatch_consumes_bypass (fs : FetchService)
  (raw : list Z) :
  (raw = [] ->
     bypassBlocks (snd (fst (filteredBlockBatch fs raw))) = bypassBlocks fs)
  /\ (forall m,
        Math_max raw = Num m ->
        bypassBlocks (snd (fst (filteredBlockBatch fs raw)))
        = List.filter (fun b => m <=? b) (bypassBlocks fs)).
Proof.
  unfold filteredBlockBatch. split.
  - intros ->. destruct (bypassBlocks fs) as [|b bs] eqn:E; [exact E|].
    cbn [snd fst set_bypassBlocks bypassBlocks Math_max lt].
    rewrite without_filter. cbn [negb].
    clear E. induction (b :: bs) as [|x l IH]; cbn; [reflexivity|].
    now rewrite IH.
  - intros m Hm. destruct (bypassBlocks fs) as [|b bs] eqn:E;
      [exact E|].
    cbn [snd fst set_bypassBlocks bypassBlocks]. rewrite Hm.
    rewrite without_filter. apply List.filter_ext. intros x. cbn.
    destruct (Z.ltb_spec x m), (Z.leb_spec m x); cbn; try reflexivity; lia.
Qed.

(** X7.  [dictionaryValidation] answers true exactly for a defined dictionary
    whose genesis hash is the API's and which, when a start height is
    given, has processed up to that height.  The service changes only on a
    genesis mismatch: a missing or lagging dictionary is turned down for
    this call and leaves every field, the genesis flag included, as it
    was. *)
Theorem dictionaryValidation_verdict (fs : FetchService)
  (d : BlockDispatcher) (dictionary : option MetaData) (start : option Z) :
  let outcome :=
    dictionaryValidation project dictionaryService apiGenesisHash
      fs d dictionary start in
  (fst (fst outcome) = true
   <-> exists metaData,
         dictionary = Some metaData
         /\ genesisHash metaData = apiGenesisHash
         /\ forall s, start = Some s -> s <= lastProcessedHeight metaData)
  /\ (dictionary = None -> snd (fst outcome) = fs)
  /\ (forall metaData,
        dictionary = Some metaData ->
        genesisHash metaData = apiGenesisHash ->
        snd (fst outcome) = fs)
  /\ (forall metaData,
        dictionary = Some metaData ->
        genesisHash metaData <> apiGenesisHash ->
        snd (fst outcome) = set_dictionaryGenesisMatches false fs).
Proof.
  cbv zeta. unfold dictionaryValidation.
  destruct dictionary as [metaData|].
  - destruct (String.eqb_spec (genesisHash metaData) apiGenesisHash)
      as [Heq|Hne]; cbn [negb].
    + destruct start as [s|].
      * destruct (Z.ltb_spec (lastProcessedHeight metaData) s);
          cbn [fst snd]; repeat split; try discriminate; try congruence.
        -- intros (m & [= <-] & _ & Hs). specialize (Hs s eq_refl). lia.
        -- intros _. exists metaData. repeat split; try assumption.
           intros s' [= <-]. lia.
      * cbn [fst snd]. repeat split; try congruence.
        intros _. exists metaData. repeat split; try assumption.
        intros s' [=].
    + cbn [fst snd]. repeat split; try discriminate; try congruence.
      intros (m & [= <-] & Hg & _). contradiction.
  - cbn [fst snd]. repeat split; try discriminate.
    intros (m & [=] & _).
Qed.

End SchedulerHelpers.

Lemma nextEndBlockHeight_clamped_witness :
  let fs := Fetch.mkFetchService (Some 130) (Some 120) false 1 [] true [] in
  Fetch.nextEndBlockHeight (Fetch.mkConfig 30 false) fs 100 30 = 120
  /\ Fetch.nextEndBlockHeight (Fetch.mkConfig 30 true) fs 100 30 = 129
  /\ Fetch.nextEndBlockHeight (Fetch.mkConfig 30 false)
       (Fetch.mkFetchService None None false 1 [] true []) 100 30 = 129.
Proof.
  intros fs. split; [|split].
  - apply (proj1 (proj2 (nextEndBlockHeight_clamped
                           (Fetch.mkConfig 30 false) fs 100 30)) 120);
      reflexivity.
  - apply (proj1 (proj2 (proj2 (nextEndBlockHeight_clamped
                                  (Fetch.mkConfig 30 true) fs 100 30)))
             120 130); try reflexivity. vm_compute. discriminate.
  - apply (proj2 (proj2 (proj2 (nextEndBlockHeight_clamped
             (Fetch.mkConfig 30 false)
             (Fetch.mkFetchService None None false 1 [] true [])
             100 30)))). reflexivity.
Defined.

Lemma filteredBlockBatch_consumes_bypass_witness :
  Fetch.bypassBlocks
    (snd (fst (Fetch.filteredBlockBatch
                 (Fetch.mkFetchService None None false 1 [] true [12; 14; 20])
                 [10; 11; 12; 13; 14])))
  = [14; 20]
  /\ Fetch.bypassBlocks
       (snd (fst (Fetch.filteredBlockBatch
                    (Fetch.mkFetchService None None false 1 [] true [12])
                    [])))
     = [12].
Proof.
  split.
  - apply (proj2 (filteredBlockBatch_consumes_bypass
                    (Fetch.mkFetchService None None false 1 [] true
                       [12; 14; 20])
                    [10; 11; 12; 13; 14]) 14).
    reflexivity.
  - apply (proj1 (filteredBlockBatch_consumes_bypass
                    (Fetch.mkFetchService None None false 1 [] true [12])
                    [])).
    reflexivity.
Defined.

Lemma dictionaryValidation_verdict_witness :
  let project := Fetch.mkProject (Some "https://dictionary.example") [] in
  let service := Fetch.mkDictionaryService (Some 1) (fun _ => 1%nat) in
  let fs := Fetch.mkFetchService None (Some 100) false 1 [] true [] in
  let lagging := Fetch.mkMetaData 50 "genesis-A" "mainnet" 1 in
  snd (fst (Fetch.dictionaryValidation project service "genesis-A" fs
              (Fetch.mkDispatcher None 10) (Some lagging) (Some 60)))
  = fs.
Proof.
  intros project service fs lagging.
  apply (proj1 (proj2 (proj2
           (dictionaryValidation_verdict project service "genesis-A" fs
              (Fetch.mkDispatcher None 10) (Some lagging) (Some 60))))
           lagging); reflexivity.
Defined.

(** ** A pass of the loop *)

Section Pass.

Import Fetch.

Variable nodeConfig : NodeConfig.
Variable project : SubqueryProject.
Variable dictionaryService : DictionaryService.
Variable apiGenesisHash : string.
Variable initBlockHeight : Z.

Lemma enqueue_without_dictionary_enqueues fs start scaled emitted :
  exists heights latest,
    fst (fst (enqueue_without_dictionary nodeConfig project
                fs start scaled emitted)) = Enqueue heights latest.
Proof.
  unfold enqueue_without_dictionary.
  destruct (filteredBlockBatch fs _) as [[c fs'] l]. cbn. eauto.
Qed.

Lemma enqueue_from_dictionary_enqueues fs after start d emitted :
  exists heights latest,
    fst (fst (enqueue_from_dictionary project fs after start d emitted))
    = Enqueue heights latest.
Proof.
  unfold enqueue_from_dictionary.
  destruct (sort_asc _) as [|x merged]; [cbn; eauto|].
  destruct (filteredBlockBatch fs _) as [[c fs'] l]. cbn. eauto.
Qed.

(** X8.  A pass sleeps exactly when the dispatcher has less free room than the
    scaled batch size or the start height lies beyond a known chain head;
    a pass that sleeps leaves the service as it was and emits nothing.
    While the head is still unknown the pass does not wait for it. *)
Theorem scan_delay_iff (fs : FetchService) (before : BlockDispatcher)
  (reply : dictionary_reply) (after : BlockDispatcher) :
  let outcome :=
    scan nodeConfig project dictionaryService apiGenesisHash initBlockHeight
         fs before reply after in
  (fst (fst outcome) = Delay
   <-> freeSize before < scaledBatchSize nodeConfig fs
       \/ exists latest,
            latestHeight nodeConfig fs = Some latest
            /\ latest < getStartBlockHeight initBlockHeight before)
  /\ (fst (fst outcome) = Delay -> outcome = (Delay, fs, [])).
Proof.
  cbv zeta. unfold scan. fold (latestHeight nodeConfig fs).
  assert (Hguard :
    (freeSize before <? scaledBatchSize nodeConfig fs)
      || gt_undef (getStartBlockHeight initBlockHeight before)
                  (latestHeight nodeConfig fs) = true
    <-> freeSize before < scaledBatchSize nodeConfig fs
        \/ exists latest,
             latestHeight nodeConfig fs = Some latest
             /\ latest < getStartBlockHeight initBlockHeight before).
  { rewrite orb_true_iff, Z.ltb_lt. unfold gt_undef.
    destruct (latestHeight nodeConfig fs) as [latest|].
    - rewrite Z.gtb_ltb, Z.ltb_lt. split.
      + intros [H|H]; [now left | right; eauto].
      + intros [H|(l & [= <-] & H)]; [now left | now right].
    - split.
      + intros [H|H]; [now left | discriminate].
      + intros [H|(l & [=] & _)]. now left. }
  destruct (_ || _) eqn:G.
  - split; [|reflexivity]. split; [intros _; now apply Hguard | reflexivity].
  - assert (Hno : forall (o : scan_action * FetchService * list event),
               (exists hs l, fst (fst o) = Enqueue hs l) ->
               (fst (fst o) = Delay <-> False)
               /\ (fst (fst o) = Delay -> o = (Delay, fs, []))).
    { intros o (hs & l & ->). split; [split|]; try discriminate.
      intros []. }
    assert (Hnot : ~ (freeSize before < scaledBatchSize nodeConfig fs
                      \/ exists latest,
                           latestHeight nodeConfig fs = Some latest
                           /\ latest
                              < getStartBlockHeight initBlockHeight before)).
    { intros H. apply Hguard in H. discriminate. }
    assert (Hdiscard :
      (fst (fst (Discard, fs, [LogQueueReset])) = Delay
       <-> freeSize before < scaledBatchSize nodeConfig fs
           \/ exists latest,
                latestHeight nodeConfig fs = Some latest
                /\ latest < getStartBlockHeight initBlockHeight before)
      /\ (fst (fst (Discard, fs, [LogQueueReset])) = Delay ->
          (Discard, fs, [LogQueueReset]) = (Delay, fs, []))).
    { cbn. split; [split|]; try discriminate. intros H. contradiction. }
    assert (Hwrap : forall (o : scan_action * FetchService * list event),
               (exists hs l, fst (fst o) = Enqueue hs l) ->
               (fst (fst o) = Delay
                <-> freeSize before < scaledBatchSize nodeConfig fs
                    \/ exists latest,
                         latestHeight nodeConfig fs = Some latest
                         /\ latest
                            < getStartBlockHeight initBlockHeight before)
               /\ (fst (fst o) = Delay -> o = (Delay, fs, []))).
    { intros o Ho. destruct (Hno o Ho) as [H1 H2]. split; [|exact H2].
      rewrite H1. tauto. }
    destruct (_ && _).
    + destruct reply as [| |d].
      * apply Hwrap, enqueue_without_dictionary_enqueues.
      * destruct (negb _); [exact Hdiscard|].
        apply Hwrap, enqueue_without_dictionary_enqueues.
      * destruct (negb _); [exact Hdiscard|].
        destruct (dictionaryValidation _ _ _ fs after _ _)
          as [[valid fs'] em].
        destruct valid.
        -- apply Hwrap, enqueue_from_dictionary_enqueues.
        -- apply Hwrap, enqueue_without_dictionary_enqueues.
    + apply Hwrap, enqueue_without_dictionary_enqueues.
Qed.

(** X9.  With no dictionary configured, or once the genesis flag is down, a
    pass does not depend on the dictionary at all: the dictionary service,
    the reply of the query and the dispatcher after the query have no
    influence on what is enqueued, on the service or on the events. *)
Theorem scan_without_dictionary_ignores_reply
  (fs : FetchService) (before : BlockDispatcher)
  dictionaryService' reply reply' after after' :
  truthy_string (network_dictionary project) = false
  \/ dictionaryGenesisMatches fs = false ->
  scan nodeConfig project dictionaryService apiGenesisHash initBlockHeight
       fs before reply after
  = scan nodeConfig project dictionaryService' apiGenesisHash initBlockHeight
         fs before reply' after'.
Proof.
  intros H.
  assert (Hu : forall svc, useDictionary project svc fs before = false).
  { intros svc. unfold useDictionary.
    destruct H as [-> | ->]; [reflexivity|].
    now rewrite andb_false_r. }
  unfold scan. rewrite !Hu. cbn [andb]. reflexivity.
Qed.

End Pass.

Lemma scan_without_dictionary_ignores_reply_witness :
  let answer :=
    Fetch.mkDictionary [1000; 1050]
      (Fetch.mkMetaData 20000 "genesis-A" "mainnet" 1) in
  Fetch.scan (Fetch.mkConfig 6 false) Fetch.every_hundredth
    (Fetch.mkDictionaryService (Some 1) (fun _ => 1%nat)) "genesis-A" 1000
    Fetch.head_at_1500 (Fetch.mkDispatcher None 6)
    (Fetch.QueryResult answer) (Fetch.mkDispatcher (Some 7) 0)
  = Fetch.scan (Fetch.mkConfig 6 false) Fetch.every_hundredth
      (Fetch.mkDictionaryService None (fun _ => 0%nat)) "genesis-A" 1000
      Fetch.head_at_1500 (Fetch.mkDispatcher None 6)
      Fetch.QueryThrows (Fetch.mkDispatcher None 6).
Proof.
  intros answer.
  apply scan_without_dictionary_ignores_reply. left. reflexivity.
Defined.

Lemma scan_delay_iff_witness :
  let config := Fetch.mkConfig 45 false in
  let service := Fetch.mkDictionaryService None (fun _ => 0%nat) in
  let fs := Fetch.mkFetchService None (Some 20000) false (7 # 10) [] true [] in
  Fetch.scan config Fetch.every_hundredth service "genesis-A" 1000
    fs (Fetch.mkDispatcher None 30) Fetch.QueryThrows
    (Fetch.mkDispatcher None 30)
  = (Fetch.Delay, fs, [])
  /\ fst (fst (Fetch.scan config Fetch.every_hundredth service "genesis-A"
                 1000 fs (Fetch.mkDispatcher None 31) Fetch.QueryThrows
                 (Fetch.mkDispatcher None 31)))
     <> Fetch.Delay.
Proof.
  intros config service fs. split.
  - destruct (scan_delay_iff config Fetch.every_hundredth service
                "genesis-A" 1000 fs (Fetch.mkDispatcher None 30)
                Fetch.QueryThrows (Fetch.mkDispatcher None 30))
      as [Hiff Hsame].
    apply Hsame. apply Hiff. left. vm_compute. reflexivity.
  - destruct (scan_delay_iff config Fetch.every_hundredth service
                "genesis-A" 1000 fs (Fetch.mkDispatcher None 31)
                Fetch.QueryThrows (Fetch.mkDispatcher None 31))
      as [Hiff _].
    intros Hdelay. apply Hiff in Hdelay.
    destruct Hdelay as [Hroom | (latest & Hhead & Hbeyond)].
    + vm_compute in Hroom. discriminate Hroom.
    + vm_compute in Hhead. injection Hhead as <-.
      vm_compute in Hbeyond. discriminate Hbeyond.
Defined.

(** ** The order and the reach of what a pass enqueues *)

Section PassOrder.

Import Fetch.

Variable nodeConfig : NodeConfig.
Variable project : SubqueryProject.
Variable dictionaryService : DictionaryService.
Variable apiGenesisHash : string.
Variable initBlockHeight : Z.

Lemma filter_all {A : Type} (l : list A) : List.filter (fun _ => true) l = l.
Proof. induction l as [|x l IH]; cbn; [reflexivity | now rewrite IH]. Qed.

Lemma filteredBlockBatch_is_filter (fs : FetchService) (raw : list Z) :
  exists keep, fst (fst (filteredBlockBatch fs raw)) = List.filter keep raw.
Proof.
  unfold filteredBlockBatch. destruct (bypassBlocks fs) as [|b bs].
  - exists (fun _ => true). cbn. now rewrite filter_all.
  - cbn [fst]. unfold cleanedBatchBlocks, without. eauto.
Qed.

Lemma StronglySorted_lt_le (l : list Z) :
  StronglySorted Z.lt l -> StronglySorted Z.le l.
Proof.
  induction 1 as [|x l Hs IH Hall]; constructor; [assumption|].
  eapply List.Forall_impl; [|exact Hall]. cbn. intros y Hy. lia.
Qed.

Lemma scaledBatchSize_positive (fs : FetchService) :
  1 <= batchSize nodeConfig -> 1 <= scaledBatchSize nodeConfig fs.
Proof. unfold scaledBatchSize, MINIMUM_BATCH_SIZE. lia. Qed.

Lemma nextEndBlockHeight_from_start (fs : FetchService) (start scaled : Z) :
  1 <= scaled ->
  gt_undef start (latestHeight nodeConfig fs) = false ->
  start <= nextEndBlockHeight nodeConfig fs start scaled.
Proof.
  intros Hs. unfold latestHeight, nextEndBlockHeight, gt_undef, ge_undef.
  destruct (unfinalizedBlocks nodeConfig),
    (latestFinalizedHeight fs) as [final|],
    (latestBestHeight fs) as [best|]; intros Hg;
    repeat match goal with
           | |- context [?a >? ?b] => destruct (Z.gtb_spec a b)
           | |- context [?a >=? ?b] => destruct (Z.geb_spec a b)
           | H : (?a >? ?b) = false |- _ =>
               rewrite Z.gtb_ltb in H; apply Z.ltb_ge in H
           end; lia.
Qed.

Lemma nextEndBlockHeight_finalized (fs : FetchService) (start scaled final : Z) :
  unfinalizedBlocks nodeConfig = false ->
  latestFinalizedHeight fs = Some final ->
  nextEndBlockHeight nodeConfig fs start scaled
  = Z.min (start + scaled - 1) final.
Proof.
  intros Hu Hf. unfold nextEndBlockHeight. rewrite Hu, Hf. cbn.
  destruct (Z.gtb_spec (start + scaled - 1) final); lia.
Qed.

Lemma getEnqueuedModuloBlocks_StronglySorted (start : Z) :
  StronglySorted Z.lt (getEnqueuedModuloBlocks nodeConfig project start).
Proof.
  unfold getEnqueuedModuloBlocks.
  destruct (Math_max (getModulos project)); try constructor.
  apply slice0_StronglySorted, getModuloBlocks_StronglySorted.
Qed.

Lemma enqueue_without_dictionary_ascending fs start scaled emitted heights :
  start <= nextEndBlockHeight nodeConfig fs start scaled ->
  enqueued (fst (fst (enqueue_without_dictionary nodeConfig project
                        fs start scaled emitted))) = Some heights ->
  StronglySorted Z.lt heights.
Proof.
  intros Hend. unfold enqueue_without_dictionary.
  match goal with
  | |- context [filteredBlockBatch fs ?raw] =>
      destruct (filteredBlockBatch_is_filter fs raw) as [keep Hk];
      assert (Hraw : StronglySorted Z.lt raw);
      [| destruct (filteredBlockBatch fs raw) as [[c fs'] l] ]
  end.
  - destruct (_ && _).
    + apply getEnqueuedModuloBlocks_StronglySorted.
    + unfold lodash_range.
      destruct (Z.leb_spec start
                  (nextEndBlockHeight nodeConfig fs start scaled + 1));
        [|lia].
      apply range_StronglySorted.
  - cbn in *. intros [= <-]. subst c. now apply filter_StronglySorted.
Qed.

Lemma enqueue_from_dictionary_ascending fs after start d emitted heights :
  enqueued (fst (fst (enqueue_from_dictionary project fs after start d
                        emitted))) = Some heights ->
  StronglySorted Z.le heights.
Proof.
  unfold enqueue_from_dictionary.
  match goal with
  | |- context [sort_asc ?l] =>
      pose proof (Sorted_StronglySorted Z.le_trans (sort_asc_Sorted l))
        as Hsorted;
      destruct (sort_asc l) as [|x merged]
  end.
  - cbn. intros [= <-]. constructor.
  - match goal with
    | |- context [filteredBlockBatch fs ?raw] =>
        destruct (filteredBlockBatch_is_filter fs raw) as [keep Hk];
        destruct (filteredBlockBatch fs raw) as [[c fs'] l]
    end.
    cbn in *. intros [= <-]. subst c.
    now apply filter_StronglySorted, slice0_StronglySorted.
Qed.

Lemma dictionaryValidation_heads fs d dictionary start :
  let fs' :=
    snd (fst (dictionaryValidation project dictionaryService apiGenesisHash
                fs d dictionary start)) in
  latestBestHeight fs' = latestBestHeight fs
  /\ latestFinalizedHeight fs' = latestFinalizedHeight fs.
Proof.
  cbv zeta. unfold dictionaryValidation.
  destruct dictionary as [metaData|]; [|now split].
  destruct (negb _); [now split|].
  destruct start as [s|]; [|now split].
  destruct (_ <? _); now split.
Qed.

(** X10.  Whatever path a pass takes, with a batch size of at least one the
    heights it enqueues are in ascending order. *)
Theorem scan_enqueues_ascending (fs : FetchService)
  (before : BlockDispatcher) (reply : dictionary_reply)
  (after : BlockDispatcher) (heights : list Z) :
  1 <= batchSize nodeConfig ->
  enqueued
    (fst (fst (scan nodeConfig project dictionaryService apiGenesisHash
                 initBlockHeight fs before reply after))) = Some heights ->
  StronglySorted Z.le heights.
Proof.
  intros Hb. unfold scan. fold (latestHeight nodeConfig fs).
  destruct (_ || _) eqn:G; [discriminate|].
  apply orb_false_iff in G as [_ G].
  pose proof (nextEndBlockHeight_from_start fs _ _
                (scaledBatchSize_positive fs Hb) G) as Hend.
  assert (Hplain : forall emitted,
             enqueued
               (fst (fst (enqueue_without_dictionary nodeConfig project fs
                            (getStartBlockHeight initBlockHeight before)
                            (scaledBatchSize nodeConfig fs) emitted)))
             = Some heights ->
             StronglySorted Z.le heights).
  { intros emitted H. apply StronglySorted_lt_le.
    eapply enqueue_without_dictionary_ascending; eassumption. }
  destruct (_ && _); [|apply Hplain].
  destruct reply as [| |d]; [apply Hplain | |].
  - destruct (negb _); [discriminate | apply Hplain].
  - destruct (negb _); [discriminate|].
    pose proof (dictionaryValidation_heads fs after (Some (_metadata d))
                  (Some (getStartBlockHeight initBlockHeight before)))
      as [Hbest Hfinal].
    destruct (dictionaryValidation _ _ _ fs after _ _) as [[valid fs'] em].
    cbn [fst snd] in Hbest, Hfinal. destruct valid.
    + apply enqueue_from_dictionary_ascending.
    + intros H. apply StronglySorted_lt_le.
      eapply enqueue_without_dictionary_ascending; [|exact H].
      replace (nextEndBlockHeight nodeConfig fs' _ _)
        with (nextEndBlockHeight nodeConfig fs
                (getStartBlockHeight initBlockHeight before)
                (scaledBatchSize nodeConfig fs)); [exact Hend|].
      unfold nextEndBlockHeight. now rewrite Hbest, Hfinal.
Qed.

(** X11.  Without a dictionary and without unfinalized blocks, a pass over a
    project that is not modulo-only enqueues exactly the heights from the
    start height up to the finalized head, short of [scaledBatchSize]
    heights in all, that are not on the bypass list: nothing beyond the
    finalized head is ever enqueued on this path. *)
Theorem scan_range_within_finalized_head (fs : FetchService)
  (before : BlockDispatcher) (reply : dictionary_reply)
  (after : BlockDispatcher) (final : Z) (heights : list Z) :
  truthy_string (network_dictionary project) = false ->
  unfinalizedBlocks nodeConfig = false ->
  latestFinalizedHeight fs = Some final ->
  1 <= batchSize nodeConfig ->
  negb (Nat.eqb (length (all_handlers project)) 0)
    && Nat.eqb (length (getModulos project))
               (length (all_handlers project)) = false ->
  enqueued
    (fst (fst (scan nodeConfig project dictionaryService apiGenesisHash
                 initBlockHeight fs before reply after))) = Some heights ->
  forall h,
    In h heights
    <-> getStartBlockHeight initBlockHeight before <= h
        /\ h <= final
        /\ h < getStartBlockHeight initBlockHeight before
               + scaledBatchSize nodeConfig fs
        /\ ~ In h (bypassBlocks fs).
Proof.
  intros Hdict Hu Hf Hb Hmod. unfold scan. rewrite Hu, Hf.
  destruct (_ || _) eqn:G; [discriminate|].
  apply orb_false_iff in G as [_ G]. cbn in G.
  rewrite Z.gtb_ltb in G. apply Z.ltb_ge in G.
  unfold useDictionary. rewrite Hdict. cbn [andb].
  unfold enqueue_without_dictionary. rewrite Hmod.
  rewrite (nextEndBlockHeight_finalized fs _ _ final Hu Hf).
  pose proof (scaledBatchSize_positive fs Hb) as Hs.
  unfold lodash_range.
  match goal with
  | |- context [if ?a <=? ?b then _ else _] =>
      destruct (Z.leb_spec a b); [|lia]
  end.
  match goal with
  | |- context [filteredBlockBatch fs ?raw] =>
      pose proof (filteredBlockBatch_In fs raw) as Hin;
      destruct (filteredBlockBatch fs raw) as [[c fs'] l]
  end.
  cbn in *. intros [= <-] h. rewrite Hin, range_In.
  split; [intros [Hr Hn] | intros (H1 & H2 & H3 & Hn)];
    repeat split; try assumption; lia.
Qed.

(** X12.  In a pass on the dictionary path whose answer passes validation, lists
    no block and meets no modulo block in the queried range, nothing is
    enqueued and the latest buffered height handed to the dispatcher is
    the smaller of the last height of the queried range and the
    dictionary's last processed height, which is never below the start
    height. *)
Theorem scan_empty_dictionary_advances (fs : FetchService)
  (before after : BlockDispatcher) (d : Dictionary) :
  let start := getStartBlockHeight initBlockHeight before in
  let advance :=
    Z.min (start + DICTIONARY_MAX_QUERY_SIZE - 1)
          (lastProcessedHeight (_metadata d)) in
  (freeSize before <? scaledBatchSize nodeConfig fs)
    || gt_undef start (latestHeight nodeConfig fs) = false ->
  useDictionary project dictionaryService fs before
    && ge_undef start (startHeight dictionaryService) = true ->
  getStartBlockHeight initBlockHeight after = start ->
  genesisHash (_metadata d) = apiGenesisHash ->
  start <= lastProcessedHeight (_metadata d) ->
  batchBlocks d = [] ->
  getModuloBlocks project start (start + DICTIONARY_MAX_QUERY_SIZE) = [] ->
  scan nodeConfig project dictionaryService apiGenesisHash initBlockHeight
       fs before (QueryResult d) after
  = (Enqueue [] (Num advance), fs, [])
  /\ start <= advance.
Proof.
  intros start advance Hroom Huse Hsame Hgen Hlast Hbatch Hmod.
  split; [|subst advance; unfold DICTIONARY_MAX_QUERY_SIZE; lia].
  unfold scan. fold (latestHeight nodeConfig fs). fold start.
  rewrite Hroom, Huse, Hsame, Z.eqb_refl. cbn [negb].
  unfold dictionaryValidation. rewrite Hgen, String.eqb_refl. cbn [negb].
  destruct (Z.ltb_spec (lastProcessedHeight (_metadata d)) start); [lia|].
  unfold enqueue_from_dictionary. rewrite Hbatch, Hmod. reflexivity.
Qed.

End PassOrder.

Lemma scan_enqueues_ascending_witness :
  StronglySorted Z.le [1000; 1100; 1200; 1300; 1400; 1500].
Proof.
  apply (scan_enqueues_ascending (Fetch.mkConfig 6 false)
           Fetch.every_hundredth
           (Fetch.mkDictionaryService None (fun _ => 0%nat)) "genesis-A"
           1000 Fetch.head_at_1500 (Fetch.mkDispatcher None 6)
           Fetch.QueryThrows (Fetch.mkDispatcher None 6)).
  - vm_compute. discriminate.
  - vm_compute. reflexivity.
Defined.

Lemma scan_range_within_finalized_head_witness :
  let project :=
    Fetch.mkProject None
      [mkDs Runtime (Some 1000)
         [mkHandler (Base Transaction)
            (Some (TransactionFilter (Some "alice.near") None))]] in
  let fs :=
    Fetch.mkFetchService None (Some 20000) false (7 # 10) [] true [1002] in
  let heights :=
    Fetch.lodash_range 1000 1002 ++ Fetch.lodash_range 1003 1031 in
  (In 1030 heights
   <-> 1000 <= 1030 /\ 1030 <= 20000
       /\ 1030 < 1000 + Fetch.scaledBatchSize (Fetch.mkConfig 45 false) fs
       /\ ~ In 1030 [1002])
  /\ (In 1031 heights
      <-> 1000 <= 1031 /\ 1031 <= 20000
          /\ 1031 < 1000 + Fetch.scaledBatchSize (Fetch.mkConfig 45 false) fs
          /\ ~ In 1031 [1002]).
Proof.
  intros project fs heights.
  assert (H : forall h,
    In h heights
    <-> 1000 <= h /\ h <= 20000
        /\ h < 1000 + Fetch.scaledBatchSize (Fetch.mkConfig 45 false) fs
        /\ ~ In h [1002]).
  { apply (scan_range_within_finalized_head (Fetch.mkConfig 45 false)
             project (Fetch.mkDictionaryService None (fun _ => 0%nat))
             "genesis-A" 1000 fs (Fetch.mkDispatcher None 45)
             Fetch.QueryThrows (Fetch.mkDispatcher None 45) 20000 heights).
    - reflexivity.
    - reflexivity.
    - reflexivity.
    - vm_compute. discriminate.
    - reflexivity.
    - vm_compute. reflexivity. }
  split; apply H.
Defined.

Lemma scan_empty_dictionary_advances_witness :
  let project :=
    Fetch.mkProject (Some "https://dictionary.example")
      [mkDs Runtime (Some 1000)
         [mkHandler (Base Transaction)
            (Some (TransactionFilter (Some "alice.near") None))]] in
  let service := Fetch.mkDictionaryService (Some 1) (fun _ => 1%nat) in
  let fs := Fetch.mkFetchService None (Some 20000) false 1 [] true [] in
  let dispatcher := Fetch.mkDispatcher None 10 in
  let answer :=
    Fetch.mkDictionary [] (Fetch.mkMetaData 5000 "genesis-A" "mainnet" 1) in
  Fetch.scan (Fetch.mkConfig 10 false) project service "genesis-A" 1000
    fs dispatcher (Fetch.QueryResult answer) dispatcher
  = (Fetch.Enqueue [] (Num 5000), fs, []).
Proof.
  intros project service fs dispatcher answer.
  refine (proj1 (scan_empty_dictionary_advances (Fetch.mkConfig 10 false)
                   project service "genesis-A" 1000 fs dispatcher dispatcher
                   answer _ _ _ _ _ _ _)).
  - vm_compute. reflexivity.
  - vm_compute. reflexivity.
  - reflexivity.
  - reflexivity.
  - vm_compute. discriminate.
  - reflexivity.
  - vm_compute. reflexivity.
Defined.

(** * Further properties of the worker *)

Section WorkerRoundTrip.

Import Worker WorkerStatus.
Context {BlockContent DataSource ForeignError : Type}.

Abbreviation Service := (@WorkerService BlockContent).

Lemma read_insert (w : Service) (h : Z) (v : fetched) :
  read (mkWorker (<[h := v]> (fetchedBlocks w)) (_isIndexing w)) h = v.
Proof. unfold read. cbn. now rewrite lookup_insert_eq. Qed.

(** X13.  Fetch then process.  When the queue accepts the task and the API
    returns the block, [fetchBlock] on a worker without an entry for [h]
    stores the block under [h], raising the number of fetched blocks by
    one; [processBlock] then hands exactly that block to the indexer,
    returns the indexer's response and removes the entry, so the map is
    back to what it was and a second [processBlock] finds nothing to
    process. *)
Theorem fetch_then_process
  (fenv : @FetchEnv BlockContent ForeignError)
  (ienv : @IndexEnv BlockContent DataSource ForeignError)
  (w : Service) (h : Z) (block : BlockContent) more ds response :
  fetchedBlocks w !! h = None ->
  queue_rejects fenv = None ->
  fetchBlocks fenv [h] = inr (Some block :: more) ->
  getAllDataSources ienv h = inr ds ->
  indexBlock ienv block ds = inr response ->
  let fetched_w := fst (fst (fetchBlock fenv w h)) in
  let processed := processBlock ienv fetched_w h in
  read fetched_w h = Content block
  /\ numFetchedBlocks fetched_w = S (numFetchedBlocks w)
  /\ snd (fst processed) = Returned response
  /\ fetchedBlocks (fst (fst processed)) = fetchedBlocks w
  /\ snd (fst (processBlock ienv (fst (fst processed)) h))
     = Thrown (NotFetched h).
Proof.
  intros Hnone Hq Hfetch Hds Hix fetched_w processed.
  assert (Hw : fetched_w
               = mkWorker (<[h := Content block]> (fetchedBlocks w))
                          (_isIndexing w)).
  { subst fetched_w. unfold fetchBlock, fetchTask, read.
    rewrite Hq, Hnone. cbn [falsy]. rewrite Hfetch. reflexivity. }
  assert (Hread : read fetched_w h = Content block)
    by (rewrite Hw; apply read_insert).
  assert (Hdel : delete h (fetchedBlocks fetched_w) = fetchedBlocks w).
  { rewrite Hw. cbn. rewrite delete_insert_eq. now apply delete_id. }
  assert (Hproc : processed
                  = (mkWorker (fetchedBlocks w) false, Returned response, [])).
  { subst processed. unfold processBlock, processBlock_try.
    change (read (set_isIndexing true fetched_w) h) with (read fetched_w h).
    rewrite Hread. cbn. rewrite Hds, Hix, Hdel. reflexivity. }
  split; [exact Hread|]. split.
  - rewrite Hw. unfold numFetchedBlocks. cbn.
    now apply map_size_insert_None.
  - rewrite Hproc. cbn [fst snd fetchedBlocks].
    split; [reflexivity|]. split; [reflexivity|].
    unfold processBlock, processBlock_try, read. cbn. now rewrite Hnone.
Qed.

(** X14.  A block that is already held is not fetched again: with a content
    entry under [h], [fetchBlock] makes no call to the API service (its
    outcome is the same whatever the API would answer) and leaves the
    worker unchanged. *)
Theorem fetchBlock_reuses_held_block
  (fenv : @FetchEnv BlockContent ForeignError) (w : Service) (h : Z)
  (block : BlockContent) :
  read w h = Content block ->
  queue_rejects fenv = None ->
  fetchBlock fenv w h = (w, Returned None, [])
  /\ forall api,
       fetchBlock (mkFetchEnv None (memoryLock_isLocked fenv) api) w h
       = fetchBlock fenv w h.
Proof.
  intros Hread Hq.
  assert (H : forall env : @FetchEnv BlockContent ForeignError,
             queue_rejects env = None ->
             fetchBlock env w h = (w, Returned None, [])).
  { intros env He. unfold fetchBlock, fetchTask. rewrite He, Hread.
    reflexivity. }
  split; [now apply H|]. intros api. now rewrite !H.
Qed.

(** X15.  A block missing from the chain stays missing: when the API answers
    [null] for [h], [fetchBlock] stores [null]; [processBlock] then
    returns the skip response without removing the entry, so every later
    [processBlock] of [h] returns the skip response again until the block
    is fetched anew, and entries of other heights are never touched. *)
Theorem unavailable_block_is_skipped_and_kept
  (fenv : @FetchEnv BlockContent ForeignError)
  (ienv : @IndexEnv BlockContent DataSource ForeignError)
  (w : Service) (h : Z) more :
  falsy (read w h) = true ->
  queue_rejects fenv = None ->
  fetchBlocks fenv [h] = inr (None :: more) ->
  let fetched_w := fst (fst (fetchBlock fenv w h)) in
  let processed := processBlock ienv fetched_w h in
  read fetched_w h = Null
  /\ snd (fst processed) = Returned (mkResponse None false None)
  /\ read (fst (fst processed)) h = Null
  /\ snd (fst (processBlock ienv (fst (fst processed)) h))
     = Returned (mkResponse None false None)
  /\ forall h', h' <> h -> read (fst (fst processed)) h' = read w h'.
Proof.
  intros Hfalsy Hq Hfetch fetched_w processed.
  assert (Hw : fetched_w
               = mkWorker (<[h := Null]> (fetchedBlocks w)) (_isIndexing w)).
  { subst fetched_w. unfold fetchBlock, fetchTask.
    rewrite Hq, Hfalsy, Hfetch. reflexivity. }
  assert (Hread : read fetched_w h = Null)
    by (rewrite Hw; apply read_insert).
  assert (Hskip : forall v : Service,
             read v h = Null ->
             processBlock ienv v h
             = (mkWorker (fetchedBlocks v) false,
                Returned (mkResponse None false None),
                [LogWarn (BlockUnavailableError h)])).
  { intros v Hv. unfold processBlock, processBlock_try.
    change (read (set_isIndexing true v) h) with (read v h).
    rewrite Hv. reflexivity. }
  subst processed. rewrite (Hskip fetched_w Hread). cbn [fst snd].
  assert (Hread' : read (mkWorker (fetchedBlocks fetched_w) false) h = Null)
    by exact Hread.
  split; [exact Hread|]. split; [reflexivity|]. split; [exact Hread'|].
  split; [now rewrite (Hskip _ Hread')|].
  intros h' Hne. rewrite Hw. unfold read. cbn.
  now rewrite lookup_insert_ne by congruence.
Qed.

End WorkerRoundTrip.

Lemma fetch_then_process_witness :
  let w : @Worker.WorkerService string := Worker.mkWorker ∅ false in
  let fenv : @Worker.FetchEnv string string :=
    Worker.mkFetchEnv None false (fun _ => inr [Some "block 42"]) in
  let ienv : @Worker.IndexEnv string unit string :=
    Worker.mkIndexEnv (fun _ => inr [tt])
      (fun _ _ => inr (Worker.mkResponse (Some "hash 42") false None)) in
  let fetched_w := fst (fst (Worker.fetchBlock fenv w 42)) in
  WorkerStatus.numFetchedBlocks fetched_w = 1%nat
  /\ snd (fst (Worker.processBlock ienv fetched_w 42))
     = Worker.Returned (Worker.mkResponse (Some "hash 42") false None).
Proof.
  intros w fenv ienv fetched_w.
  destruct (fetch_then_process fenv ienv w 42 "block 42" [] [tt]
              (Worker.mkResponse (Some "hash 42") false None))
    as (_ & Hn & Hr & _); try reflexivity.
  split; [exact Hn | exact Hr].
Defined.

Lemma fetchBlock_reuses_held_block_witness :
  let w : @Worker.WorkerService string :=
    Worker.mkWorker (<[42 := Worker.Content "block 42"]> ∅) false in
  let down : @Worker.FetchEnv string string :=
    Worker.mkFetchEnv None false (fun _ => inl "rpc unreachable") in
  Worker.fetchBlock down w 42 = (w, Worker.Returned None, []).
Proof.
  intros w down.
  apply (proj1 (fetchBlock_reuses_held_block down w 42 "block 42"
                  eq_refl eq_refl)).
Defined.

Lemma unavailable_block_is_skipped_and_kept_witness :
  let w : @Worker.WorkerService string := Worker.mkWorker ∅ false in
  let fenv : @Worker.FetchEnv string string :=
    Worker.mkFetchEnv None false (fun _ => inr [None]) in
  let ienv : @Worker.IndexEnv string unit string :=
    Worker.mkIndexEnv (fun _ => inr [tt]) (fun _ _ => inl "never called") in
  let fetched_w := fst (fst (Worker.fetchBlock fenv w 42)) in
  Worker.read fetched_w 42 = Worker.Null
  /\ snd (fst (Worker.processBlock ienv fetched_w 42))
     = Worker.Returned (Worker.mkResponse None false None).
Proof.
  intros w fenv ienv fetched_w.
  destruct (unavailable_block_is_skipped_and_kept fenv ienv w 42 [])
    as (Hr & Hs & _); try reflexivity.
  split; [exact Hr | exact Hs].
Defined.

(** * Further properties of the filter engine *)

Section MoreFilters.

Import Near Filters.

(** X16.  [filterTransactions] never drops a transaction: whatever filter, or
    array of filters, is passed, sender and receiver included, the list
    comes back unchanged. *)
Theorem filterTransactions_keeps_everything {Tx : Type}
  (transactions : list Tx)
  (arg : filter_or_filters NearTransactionFilter) :
  filterTransactions transactions arg = transactions.
Proof.
  unfold filterTransactions.
  destruct arg as [|f|[|f fs]]; try reflexivity.
  - cbn [List.find filterTransaction]. apply filter_all.
  - cbn [List.find filterTransaction]. apply filter_all.
Qed.

Context {NearBlock : Type}.
Variable height : NearBlock -> Z.
Variable block_timestamp : NearBlock -> Z.
Variable slot : Z -> Z.

Lemma filterBlockTimestamp_cases (t : Z) (s : Seeker) :
  (t > upcoming slot s
   /\ fst (fst (filterBlockTimestamp slot t s)) = true
   /\ snd (fst (filterBlockTimestamp slot t s)) = mkSeeker (cursor s + 1))
  \/ (t <= upcoming slot s
      /\ filterBlockTimestamp slot t s = (false, s, [])).
Proof.
  destruct (Z_gt_le_dec t (upcoming slot s)) as [Hgt|Hle].
  - left. rewrite (filterBlockTimestamp_match slot t s Hgt). auto.
  - right. split; [assumption|].
    now apply filterBlockTimestamp_no_match.
Qed.

(** X17.  [filterBlock] with a filter that carries its schedule: the block is
    handed on exactly when its height passes the modulo test and, if the
    filter has a [timestamp], its timestamp exceeds the schedule's next
    slot; otherwise the result is [undefined].  A block turned down by the
    modulo test leaves the filter, schedule included, untouched; a block
    that matches the timestamp moves the schedule on by one slot. *)
Theorem filterBlock_verdict (block : NearBlock)
  (f : SubqlProjectBlockFilter) (s : Seeker) :
  cronSchedule f = Some s ->
  exists verdict f' logs,
    filterBlock height block_timestamp slot block (Some f)
    = inr (verdict, Some f', logs)
    /\ (verdict = Some block \/ verdict = None)
    /\ (verdict = Some block
        <-> filterBlockModulo (height block) (block_filter f) = true
            /\ (truthy_string (timestamp (block_filter f)) = true ->
                block_timestamp block > upcoming slot s))
    /\ block_filter f' = block_filter f
    /\ (filterBlockModulo (height block) (block_filter f) = false ->
        f' = f /\ logs = [])
    /\ (verdict = Some block ->
        truthy_string (timestamp (block_filter f)) = true ->
        cronSchedule f' = Some (mkSeeker (cursor s + 1))).
Proof.
  intros Hs. unfold filterBlock.
  destruct (filterBlockModulo (height block) (block_filter f)) eqn:Em;
    cbn [negb].
  - destruct (truthy_string (timestamp (block_filter f))) eqn:Et.
    + rewrite Hs.
      destruct (filterBlockTimestamp_cases (block_timestamp block) s)
        as [(Hgt & Hv & Hsch)|(Hle & Heq)].
      * destruct (filterBlockTimestamp slot (block_timestamp block) s)
          as [[matched s'] logs]. cbn in Hv, Hsch. subst.
        eexists _, _, _. split; [reflexivity|].
        repeat split; auto; try discriminate.
      * rewrite Heq. eexists _, _, _. split; [reflexivity|].
        repeat split; auto; try discriminate.
        intros [_ H]. specialize (H eq_refl). lia.
    + exists (Some block), f, []. repeat split; auto; try discriminate.
  - exists None, f, []. repeat split; auto; try discriminate.
    intros [H _]. discriminate.
Qed.

End MoreFilters.

Lemma filterBlock_verdict_witness :
  let every_minute := fun k => 60000 * k in
  let f :=
    Filters.mkProjectBlockFilter (mkBlockFilter (Some 5) (Some "* * * * *"))
      (Some (Near.mkSeeker 0)) in
  exists verdict f' logs,
    @Filters.filterBlock (Z * Z) fst snd every_minute (10, 60001) (Some f)
    = inr (verdict, Some f', logs)
    /\ verdict = Some (10, 60001)
    /\ Filters.cronSchedule f' = Some (Near.mkSeeker 1).
Proof.
  intros every_minute f.
  destruct (@filterBlock_verdict (Z * Z) fst snd every_minute (10, 60001) f
              (Near.mkSeeker 0) eq_refl)
    as (verdict & f' & logs & Heq & _ & Hiff & _ & _ & Hadv).
  assert (Hv : verdict = Some (10, 60001)).
  { apply Hiff. split; [reflexivity|]. intros _. reflexivity. }
  exists verdict, f', logs. split; [exact Heq|]. split; [exact Hv|].
  apply Hadv; [exact Hv | reflexivity].
Defined.

(** * The project loader *)

Section ChainId.

Import Manifest.
Context {Rest : Type}.

(** X18.  [processChainId] fails exactly when both [chainId] and [genesisHash]
    are given.  Otherwise the result carries no [genesisHash], has the
    given [genesisHash] as its [chainId] when one was given and the given
    [chainId] if not, keeps every other property, and is a fixed point:
    processing it again changes nothing. *)
Theorem processChainId_normalises (network : Network Rest) :
  (processChainId network = inl OnlyOneOfChainIdAndGenesisHash
   <-> truthy_string (chainId network) = true
       /\ truthy_string (genesisHash network) = true)
  /\ (forall e, processChainId network = inl e ->
        e = OnlyOneOfChainIdAndGenesisHash)
  /\ forall network',
       processChainId network = inr network' ->
       genesisHash network' = None
       /\ rest network' = rest network
       /\ chainId network'
          = (if truthy_string (genesisHash network)
             then genesisHash network else chainId network)
       /\ processChainId network' = inr network'.
Proof.
  unfold processChainId.
  destruct (truthy_string (chainId network)) eqn:Ec,
           (truthy_string (genesisHash network)) eqn:Eg; cbn [andb negb].
  - split; [tauto|]. split; [now intros e [= <-]|]. discriminate.
  - split; [split; [discriminate | intros [_ H]; discriminate]|].
    split; [discriminate|]. intros n' [= <-]. cbn.
    rewrite Ec. cbn. auto.
  - split; [split; [discriminate | intros [H _]; discriminate]|].
    split; [discriminate|]. intros n' [= <-]. cbn.
    rewrite Eg. cbn. auto.
  - split; [split; [discriminate | intros [H _]; discriminate]|].
    split; [discriminate|]. intros n' [= <-]. cbn.
    rewrite Ec. cbn. auto.
Qed.

End ChainId.

Lemma processChainId_normalises_witness :
  Manifest.processChainId (Manifest.mkNetwork None (Some "0xAAA") tt)
  = inr (Manifest.mkNetwork (Some "0xAAA") None tt)
  /\ Manifest.processChainId (Manifest.mkNetwork (Some "mainnet") (Some "0xAAA") tt)
     = inl Manifest.OnlyOneOfChainIdAndGenesisHash.
Proof.
  split; [reflexivity|].
  apply (proj1 (processChainId_normalises
                  (Manifest.mkNetwork (Some "mainnet") (Some "0xAAA") tt))).
  split; reflexivity.
Defined.

(** * The API service *)

Section ApiInit.

Import Api.
Context {RpcError : Type}.
Variable create : string -> RpcError + @NearApiConnection RpcError.
Variable network_chainId : option string.

Abbreviation State := (@init_state RpcError).

Lemma connect_inr (st st' : State) (i : nat) (endpoint : string) :
  connect create network_chainId st i endpoint = inr st' ->
  exists connection,
    create endpoint = inr connection
    /\ emitted st' = emitted st ++ [ApiConnected i endpoint]
    /\ endpointToApiIndex st'
       = <[endpoint := connection]> (endpointToApiIndex st)
    /\ match service_networkMeta st with
       | None =>
           service_networkMeta st' = Some (networkMeta connection)
           /\ forall declared,
                network_chainId = Some declared -> declared <> "" ->
                declared = chain (networkMeta connection)
       | Some meta =>
           service_networkMeta st' = Some meta
           /\ genesis_block_hash connection = inr (genesisHash meta)
       end.
Proof.
  unfold connect. destruct (create endpoint) as [e|connection];
    [discriminate|].
  destruct (status connection) as [e|chain_id]; [discriminate|].
  destruct (service_networkMeta st) as [meta|] eqn:Em.
  - destruct (genesis_block_hash connection) as [e|hash] eqn:Eh;
      [discriminate|].
    destruct (String.eqb_spec (genesisHash meta) hash) as [Heq|Hne];
      cbn [negb]; [|discriminate].
    intros [= <-]. exists connection. cbn. repeat split; auto.
    congruence.
  - destruct network_chainId as [declared|].
    + destruct (truthy_string (Some declared)) eqn:Et; cbn [andb].
      * destruct (String.eqb_spec declared (chain (networkMeta connection)))
          as [Heq|Hne]; cbn [negb]; [|discriminate].
        intros [= <-]. exists connection. cbn. repeat split; auto.
        intros d [= <-] _. exact Heq.
      * intros [= <-]. exists connection. cbn. repeat split; auto.
        intros d [= <-] Hd. cbn in Et.
        apply negb_false_iff, String.eqb_eq in Et. contradiction.
    + intros [= <-]. exists connection. cbn. repeat split; auto.
      discriminate.
Qed.

Lemma connect_all_settled (st st' : State) (i : nat)
  (endpoints : list string) (meta : NetworkMeta) :
  service_networkMeta st = Some meta ->
  connect_all create network_chainId st i endpoints = inr st' ->
  service_networkMeta st' = Some meta
  /\ (forall endpoint,
        In endpoint endpoints ->
        exists connection,
          create endpoint = inr connection
          /\ genesis_block_hash connection = inr (genesisHash meta))
  /\ (forall endpoint connection,
        endpointToApiIndex st' !! endpoint = Some connection
        <-> (In endpoint endpoints /\ create endpoint = inr connection)
            \/ (~ In endpoint endpoints
                /\ endpointToApiIndex st !! endpoint = Some connection))
  /\ emitted st'
     = emitted st
       ++ map (fun p => ApiConnected (fst p) (snd p))
              (combine (seq i (length endpoints)) endpoints).
Proof.
  revert st i. induction endpoints as [|endpoint more IH];
    intros st i Hmeta Hall.
  - cbn in Hall. injection Hall as <-. cbn. rewrite List.app_nil_r.
    split; [assumption|]. split; [intros ep []|]. split; [|reflexivity].
    intros ep conn. tauto.
  - cbn [connect_all] in Hall.
    destruct (connect create network_chainId st i endpoint) as [e|st1] eqn:E1;
      [discriminate|].
    apply connect_inr in E1 as (c & Hc & Hev & Hmap & Hm). rewrite Hmeta in Hm.
    destruct Hm as [Hmeta1 Hgen].
    destruct (IH st1 (S i) Hmeta1 Hall) as (Hm' & Hgens & Hmaps & Hevs).
    split; [exact Hm'|]. split; [|split].
    + intros ep [<-|Hin]; [eauto | now apply Hgens].
    + intros ep conn. rewrite Hmaps, Hmap. cbn [In].
      destruct (String.eqb_spec endpoint ep) as [->|Hne].
      * rewrite lookup_insert_eq. split.
        -- intros [[Hin Hcr]|[Hn [= <-]]]; left; auto.
        -- intros [[_ Hcr]|[Hn _]]; [|tauto].
           destruct (List.in_dec String.string_dec ep more) as [Hin|Hn];
             [left; auto | right; split; [assumption | congruence]].
      * rewrite lookup_insert_ne by assumption. split.
        -- intros [[Hin Hcr]|[Hn Hl]]; [left; auto | right; split; tauto].
        -- intros [[[Heq|Hin] Hcr]|[Hn Hl]];
             [contradiction | left; auto | right; split; tauto].
    + rewrite Hevs, Hev, <- List.app_assoc. reflexivity.
Qed.

(** X19.  When [init] succeeds on a non-empty endpoint list, the network
    metadata is that of the first endpoint's connection, a declared,
    non-empty [chainId] equals that connection's chain, every later
    endpoint's block at the genesis height has the first connection's
    genesis hash, the batch handed to the pool holds exactly the listed
    endpoints, each with the connection created for it, and one
    connected event was emitted per endpoint, in order. *)
Theorem init_endpoints_agree (first : string) (more : list string)
  (st : State) :
  init create network_chainId (first :: more) = inr st ->
  exists connection,
    create first = inr connection
    /\ service_networkMeta st = Some (networkMeta connection)
    /\ (forall declared,
          network_chainId = Some declared -> declared <> "" ->
          declared = chain (networkMeta connection))
    /\ (forall endpoint,
          In endpoint more ->
          exists other,
            create endpoint = inr other
            /\ genesis_block_hash other
               = inr (genesisHash (networkMeta connection)))
    /\ (forall endpoint c,
          endpointToApiIndex st !! endpoint = Some c
          <-> In endpoint (first :: more) /\ create endpoint = inr c)
    /\ emitted st
       = map (fun p => ApiConnected (fst p) (snd p))
             (combine (seq 0 (S (length more))) (first :: more)).
Proof.
  unfold init. cbn [connect_all]. intros Hall.
  destruct (connect create network_chainId _ 0%nat first) as [e|st1] eqn:E1;
    [discriminate|].
  apply connect_inr in E1 as (c & Hc & Hev & Hmap & Hmeta & Hchain).
  cbn in Hev, Hmap, Hmeta, Hchain.
  destruct (connect_all_settled st1 st 1 more (networkMeta c) Hmeta Hall)
    as (Hm & Hgens & Hmaps & Hevs).
  exists c. split; [exact Hc|]. split; [exact Hm|].
  split; [exact Hchain|]. split; [exact Hgens|]. split.
  - intros ep conn. split.
    + intros Hl. apply Hmaps in Hl as [[Hin Hcr]|[Hn Hl]].
      * split; [now right | assumption].
      * rewrite Hmap in Hl.
        destruct (String.eqb_spec first ep) as [->|Hne].
        -- rewrite lookup_insert_eq in Hl. split; [now left | congruence].
        -- rewrite lookup_insert_ne, lookup_empty in Hl by assumption.
           discriminate.
    + intros [[<-|Hin] Hcr]; apply Hmaps.
      * destruct (List.in_dec String.string_dec first more) as [Hin|Hn].
        -- left. auto.
        -- right. split; [assumption|].
           rewrite Hmap, lookup_insert_eq. congruence.
      * left. auto.
  - rewrite Hevs, Hev. reflexivity.
Qed.

End ApiInit.

Lemma init_endpoints_agree_witness :
  let meta := Api.mkNetworkMeta "mainnet" "0xAAA" in
  let create : string -> string + @Api.NearApiConnection string :=
    fun _ => inr (Api.mkConnection meta (inr "mainnet") (inr "0xAAA")) in
  exists st,
    Api.init create (Some "mainnet") ["https://a.example"; "https://b.example"]
    = inr st
    /\ Api.service_networkMeta st = Some meta.
Proof.
  intros meta create.
  destruct (Api.init create (Some "mainnet")
              ["https://a.example"; "https://b.example"]) as [e|st] eqn:E;
    [vm_compute in E; discriminate|].
  exists st. split; [reflexivity|].
  destruct (init_endpoints_agree create (Some "mainnet") "https://a.example"
              ["https://b.example"] st E) as (c & Hc & Hm & _).
  rewrite Hm. injection Hc as <-. reflexivity.
Defined.

(** * Datasource processors *)

Section ProcessorVersions.

Import DsProcessor.
Context {F Input DS Api Assets E Rejection Base : Type}.

Abbreviation Processor :=
  (@processor F Input DS Api Assets E Rejection Base).

(** X20.  [asSecondLayerHandlerProcessor_1_0_0] returns a 1.0.0 processor as it
    is, rejects a processor of any other declared version, and lifts a
    processor without a version: the shared fields are kept, the lifted
    filter asks the old filter with the filter, input and datasource of
    the parameters, and the lifted transformer returns the old
    transformer's single result as a one-element list (or its rejection).
    Every successful result is a 1.0.0 processor, so converting twice is
    the same as converting once. *)
Theorem asSecondLayerHandlerProcessor_1_0_0_normalises (p : Processor) :
  (isSecondLayerHandlerProcessor_1_0_0 p = true ->
     asSecondLayerHandlerProcessor_1_0_0 p = inr p)
  /\ (forall v base,
        p = Processor_other v base -> v <> "1.0.0" ->
        asSecondLayerHandlerProcessor_1_0_0 p = inl UnsupportedVersion)
  /\ (forall base filterProcessor transformer,
        p = Processor_0_0_0 base filterProcessor transformer ->
        exists filterProcessor' transformer',
          asSecondLayerHandlerProcessor_1_0_0 p
          = inr (Processor_1_0_0 base filterProcessor' transformer')
          /\ (forall params,
                filterProcessor' params
                = filterProcessor (p_filter params) (p_input params)
                                  (p_ds params))
          /\ (forall params,
                transformer' params
                = match transformer (p_input params) (p_ds params)
                                    (p_api params) (p_assets params) with
                  | inl e => inl e
                  | inr res => inr [res]
                  end))
  /\ (forall p',
        asSecondLayerHandlerProcessor_1_0_0 p = inr p' ->
        isSecondLayerHandlerProcessor_1_0_0 p' = true
        /\ asSecondLayerHandlerProcessor_1_0_0 p' = inr p').
Proof.
  split; [|split; [|split]].
  - intros H. unfold asSecondLayerHandlerProcessor_1_0_0. now rewrite H.
  - intros v base -> Hv. unfold asSecondLayerHandlerProcessor_1_0_0.
    cbn. apply String.eqb_neq in Hv. now rewrite Hv.
  - intros base fp tr ->. eexists _, _. split; [reflexivity|].
    split; reflexivity.
  - intros p' H. unfold asSecondLayerHandlerProcessor_1_0_0 in H.
    destruct p as [base fp tr|base fp tr|v base]; cbn in H.
    + injection H as <-. split; reflexivity.
    + injection H as <-. split; reflexivity.
    + destruct (String.eqb_spec v "1.0.0") as [->|Hne]; [|discriminate].
      injection H as <-. split; reflexivity.
Qed.

End ProcessorVersions.

Lemma asSecondLayerHandlerProcessor_1_0_0_normalises_witness :
  let legacy : @DsProcessor.processor unit Z unit unit unit Z string unit :=
    DsProcessor.Processor_0_0_0 tt (fun _ input _ => 0 <? input)
      (fun input _ _ _ => inr (input + 1)) in
  exists filterProcessor' transformer',
    DsProcessor.asSecondLayerHandlerProcessor_1_0_0 legacy
    = inr (DsProcessor.Processor_1_0_0 tt filterProcessor' transformer')
    /\ transformer' (DsProcessor.mkParams None 41 tt tt None) = inr [42].
Proof.
  intros legacy.
  destruct (proj1 (proj2 (proj2
              (asSecondLayerHandlerProcessor_1_0_0_normalises legacy)))
              tt (fun _ input _ => 0 <? input)
              (fun input _ _ _ => inr (input + 1)) eq_refl)
    as (fp' & tr' & Heq & _ & Htr).
  exists fp', tr'. split; [exact Heq|]. rewrite Htr. reflexivity.
Defined.

(** * The block assembler *)

Section Assembling.

Import Near Assembler.
Context {Receipt RpcError : Type}.
Variable api : Rpc.Api Receipt RpcError.
Variable block : Rpc.BlockResult.

Abbreviation Block := (NearBlock Receipt).
Abbreviation Action := (NearAction NearTransaction).

Lemma wrapAction_inr {Tx : Type} (a : wire_action) (i : nat) (tx : Tx)
  (w : NearAction Tx) :
  wrapAction a i tx = inr w ->
  id w = i /\ transaction w = tx /\ In (type w) action_types.
Proof.
  unfold wrapAction. destruct (is_CreateAccount_literal a).
  - cbn. intros [= <-]. cbn. tauto.
  - destruct (hd_error (Object_keys a)) as [t|]; [|discriminate].
    unfold parseNearAction.
    destruct (is_action_type t) eqn:Et; [|discriminate].
    intros [= <-]. cbn [id transaction type]. repeat split.
    now apply is_action_type_In.
Qed.

Lemma wrapTransaction_inr (t : Rpc.Tx.t) (w : NearTransaction) :
  wrapTransaction api block t = inr w ->
  txn w = t
  /\ block_hash w = Rpc.Header.hash (Rpc.header block)
  /\ block_height w = Rpc.Header.height (Rpc.header block)
  /\ timestamp w = Rpc.Header.timestamp (Rpc.header block)
  /\ gas_price w = Rpc.Header.gas_price (Rpc.header block).
Proof.
  unfold wrapTransaction.
  destruct (Rpc.txStatusReceipts api _ _) as [e|o]; [discriminate|].
  intros [= <-]. cbn. tauto.
Qed.

Lemma wrapActions_inr (acts : list wire_action) (i : nat)
  (tx : NearTransaction) (ws : list Action) :
  wrapActions acts i tx = inr ws ->
  map (fun a => (transaction a, id a)) ws
  = map (pair tx) (seq i (length acts))
  /\ (forall a, In a ws ->
        In (type a) action_types
        /\ exists k wire,
             nth_error acts k = Some wire
             /\ id a = (i + k)%nat
             /\ wrapAction wire (id a) tx = inr a)
  /\ (forall wire, In wire acts ->
        exists k a, wrapAction wire k tx = inr a).
Proof.
  revert i ws. induction acts as [|wire acts IH]; intros i ws; cbn.
  - intros [= <-]. cbn [map length seq In].
    split; [reflexivity|]. split; intros ? [].
  - destruct (wrapAction wire i tx) as [e|a] eqn:Ea; [discriminate|].
    destruct (wrapActions acts (S i) tx) as [e|rest] eqn:Er; [discriminate|].
    intros [= <-]. destruct (IH (S i) rest Er) as (Hkeys & Hin & Hall).
    destruct (wrapAction_inr wire i tx a Ea) as (Hid & Htx & Hty).
    split; [|split].
    + cbn. now rewrite Hkeys, Hid, Htx.
    + intros b [<-|Hb].
      * split; [assumption|]. exists 0%nat, wire. cbn.
        rewrite Hid, Nat.add_0_r. auto.
      * destruct (Hin b Hb) as (Hty' & k & w' & Hn & Hk & Hw).
        split; [assumption|]. exists (S k), w'. cbn.
        repeat split; [assumption | lia | assumption].
    + intros w' [<-|Hw]; [eauto | now apply Hall].
Qed.

(** What a successful run of the two loops has accumulated. *)
Lemma wrapChunkTransactions_inr (txs : list Rpc.Tx.t) (nb nb' : Block) :
  wrapChunkTransactions api block txs nb = inr nb' ->
  exists ws ass,
    Forall2 (fun t w => wrapTransaction api block t = inr w) txs ws
    /\ Forall2 (fun w acts =>
                  wrapActions (Rpc.Tx.actions (txn w)) 0 w = inr acts)
               ws ass
    /\ transactions nb' = transactions nb ++ ws
    /\ actions nb' = actions nb ++ concat ass
    /\ receipts nb' = receipts nb
    /\ author nb' = author nb /\ header nb' = header nb
    /\ chunks nb' = chunks nb.
Proof.
  revert nb. induction txs as [|t txs IH]; intros nb; cbn.
  - intros [= <-]. exists [], []. cbn. rewrite !List.app_nil_r.
    repeat split; constructor.
  - destruct (wrapTransaction api block t) as [e|w] eqn:Ew; [discriminate|].
    destruct (wrapActions (Rpc.Tx.actions t) 0 w) as [e|acts] eqn:Ea;
      [discriminate|].
    intros H. apply IH in H as (ws & ass & Hws & Hass & Ht & Ha & Hr & Hrest).
    cbn in Ht, Ha, Hr, Hrest.
    exists (w :: ws), (acts :: ass). split; [now constructor|].
    split.
    + constructor; [|assumption].
      now rewrite (proj1 (wrapTransaction_inr t w Ew)).
    + rewrite Ht, Ha, <- !List.app_assoc. cbn. auto.
Qed.

Lemma wrapChunks_inr (hashes : list string) (nb nb' : Block) :
  wrapChunks api block hashes nb = inr nb' ->
  exists crs ws ass,
    Forall2 (fun h cr => Rpc.chunk api h = inr cr) hashes crs
    /\ Forall2 (fun t w => wrapTransaction api block t = inr w)
               (flat_map Rpc.chunk_transactions crs) ws
    /\ Forall2 (fun w acts =>
                  wrapActions (Rpc.Tx.actions (txn w)) 0 w = inr acts)
               ws ass
    /\ transactions nb' = transactions nb ++ ws
    /\ actions nb' = actions nb ++ concat ass
    /\ receipts nb' = receipts nb ++ flat_map Rpc.chunk_receipts crs
    /\ author nb' = author nb /\ header nb' = header nb
    /\ chunks nb' = chunks nb.
Proof.
  revert nb. induction hashes as [|h hashes IH]; intros nb; cbn.
  - intros [= <-]. exists [], [], []. cbn. rewrite !List.app_nil_r.
    repeat split; constructor.
  - destruct (Rpc.chunk api h) as [e|cr] eqn:Ec; [discriminate|].
    destruct (wrapChunkTransactions api block _ nb) as [e|nb1] eqn:E1;
      [discriminate|].
    apply wrapChunkTransactions_inr in E1
      as (ws1 & ass1 & Hws1 & Hass1 & Ht1 & Ha1 & Hr1 & Hau1 & Hh1 & Hc1).
    intros H. apply IH in H
      as (crs & ws & ass & Hcrs & Hws & Hass & Ht & Ha & Hr & Hau & Hh & Hc).
    cbn in Ht, Ha, Hr, Hau, Hh, Hc.
    exists (cr :: crs), (ws1 ++ ws), (ass1 ++ ass).
    split; [now constructor|]. cbn [flat_map].
    split; [now apply List.Forall2_app|].
    split; [now apply List.Forall2_app|].
    rewrite Ht, Ha, Hr, Ht1, Ha1, Hr1, List.concat_app, <- !List.app_assoc.
    repeat split; congruence.
Qed.

Lemma Forall2_In_l {A B : Type} (R : A -> B -> Prop) l l' x :
  Forall2 R l l' -> In x l -> exists y, In y l' /\ R x y.
Proof.
  induction 1 as [|a b l l' Hab _ IH]; [intros []|].
  intros [<-|Hx]; [exists b; cbn; auto|].
  destruct (IH Hx) as (y & Hy & Hr). exists y. cbn. auto.
Qed.

Lemma Forall2_In_r {A B : Type} (R : A -> B -> Prop) l l' y :
  Forall2 R l l' -> In y l' -> exists x, In x l /\ R x y.
Proof.
  induction 1 as [|a b l l' Hab _ IH]; [intros []|].
  intros [<-|Hy]; [exists a; cbn; auto|].
  destruct (IH Hy) as (x & Hx & Hr). exists x. cbn. auto.
Qed.

Lemma wrapped_transactions_origin (txs : list Rpc.Tx.t)
  (ws : list NearTransaction) :
  Forall2 (fun t w => wrapTransaction api block t = inr w) txs ws ->
  map txn ws = txs.
Proof.
  induction 1 as [|t w txs ws Hw _ IH]; cbn; [reflexivity|].
  now rewrite IH, (proj1 (wrapTransaction_inr t w Hw)).
Qed.

Lemma wrapped_actions_keys (ws : list NearTransaction)
  (ass : list (list Action)) :
  Forall2 (fun w acts =>
             wrapActions (Rpc.Tx.actions (txn w)) 0 w = inr acts) ws ass ->
  map (fun a => (transaction a, id a)) (concat ass)
  = flat_map
      (fun w => map (pair w) (seq 0 (length (Rpc.Tx.actions (txn w))))) ws.
Proof.
  induction 1 as [|w acts ws ass Hw _ IH]; cbn; [reflexivity|].
  rewrite List.map_app, IH.
  now rewrite (proj1 (wrapActions_inr _ _ _ _ Hw)).
Qed.

(** X21.  A wrapped block keeps the author, header and chunk list of the block
    result; its transactions are the transactions of the fetched chunks in
    chunk order and, inside a chunk, in the chunk's order, each stamped
    with the block's hash, height, timestamp and gas price; its receipts
    are the chunks' receipts in the same order. *)
Theorem wrapBlock_transactions_in_chunk_order (nb : Block) :
  wrapBlock api block = inr nb ->
  author nb = Rpc.author block
  /\ header nb = Rpc.header block
  /\ chunks nb = Rpc.chunks block
  /\ (exists crs,
        Forall2 (fun h cr => Rpc.chunk api h = inr cr) (Rpc.chunks block) crs
        /\ map txn (transactions nb) = flat_map Rpc.chunk_transactions crs
        /\ receipts nb = flat_map Rpc.chunk_receipts crs)
  /\ forall tx,
       In tx (transactions nb) ->
       block_hash tx = Rpc.Header.hash (Rpc.header block)
       /\ block_height tx = Rpc.Header.height (Rpc.header block)
       /\ timestamp tx = Rpc.Header.timestamp (Rpc.header block)
       /\ gas_price tx = Rpc.Header.gas_price (Rpc.header block).
Proof.
  unfold wrapBlock. intros H.
  apply wrapChunks_inr in H
    as (crs & ws & ass & Hcrs & Hws & Hass & Ht & Ha & Hr & Hau & Hh & Hc).
  cbn in Ht, Ha, Hr, Hau, Hh, Hc.
  split; [assumption|]. split; [assumption|]. split; [assumption|]. split.
  - exists crs. split; [assumption|].
    rewrite Ht, Hr. split; [|reflexivity].
    now apply wrapped_transactions_origin.
  - intros tx Htx. rewrite Ht in Htx.
    destruct (Forall2_In_r _ _ _ tx Hws Htx) as (t & _ & Hw).
    now apply (wrapTransaction_inr t tx Hw).
Qed.

(** X22.  The actions of a wrapped block are the actions of its transactions,
    transaction after transaction and, inside a transaction, in the
    transaction's order: each action's [id] is its position in its
    transaction's action list, its [transaction] is the wrapped
    transaction it came from, it is the decoding of the wire action at
    that position, and its type is one of the eight action types. *)
Theorem wrapBlock_actions_by_position (nb : Block) :
  wrapBlock api block = inr nb ->
  map (fun a => (transaction a, id a)) (actions nb)
  = flat_map
      (fun tx => map (pair tx) (seq 0 (length (Rpc.Tx.actions (txn tx)))))
      (transactions nb)
  /\ forall a,
       In a (actions nb) ->
       In (transaction a) (transactions nb)
       /\ In (type a) action_types
       /\ exists wire,
            nth_error (Rpc.Tx.actions (txn (transaction a))) (id a)
            = Some wire
            /\ wrapAction wire (id a) (transaction a) = inr a.
Proof.
  unfold wrapBlock. intros H.
  apply wrapChunks_inr in H
    as (crs & ws & ass & Hcrs & Hws & Hass & Ht & Ha & _).
  cbn in Ht, Ha. rewrite Ht, Ha. split.
  - now apply wrapped_actions_keys.
  - intros a Hin. apply List.in_concat in Hin as (acts & Hacts & Hin).
    destruct (Forall2_In_r _ _ _ acts Hass Hacts) as (w & Hw & Hwrap).
    destruct (wrapActions_inr _ _ _ _ Hwrap) as (_ & Hall & _).
    destruct (Hall a Hin) as (Hty & k & wire & Hn & Hk & Hdec).
    destruct (wrapAction_inr wire (id a) w a Hdec) as (_ & Htx & _).
    cbn in Hk. rewrite Htx. split; [assumption|]. split; [assumption|].
    exists wire. split; [now rewrite Hk | assumption].
Qed.

(** X23.  One undecodable action spoils the whole block: if a chunk of the block
    lists a transaction with an action that [wrapAction] rejects,
    [wrapBlock] does not return a block. *)
Theorem wrapBlock_rejects_invalid_action
  (chunk_hash : string) (cr : Rpc.ChunkResult Receipt) (t : Rpc.Tx.t)
  (wire : wire_action) :
  In chunk_hash (Rpc.chunks block) ->
  Rpc.chunk api chunk_hash = inr cr ->
  In t (Rpc.chunk_transactions cr) ->
  In wire (Rpc.Tx.actions t) ->
  (forall i (tx : NearTransaction), wrapAction wire i tx = inl InvalidAction) ->
  forall nb, wrapBlock api block <> inr nb.
Proof.
  intros Hh Hc Ht Hwire Hbad nb H. unfold wrapBlock in H.
  apply wrapChunks_inr in H as (crs & ws & ass & Hcrs & Hws & Hass & _).
  destruct (Forall2_In_l _ _ _ chunk_hash Hcrs Hh) as (cr' & Hcr' & Hc').
  assert (cr' = cr) by congruence. subst cr'.
  assert (Hin : In t (flat_map Rpc.chunk_transactions crs))
    by (apply List.in_flat_map; eauto).
  destruct (Forall2_In_l _ _ _ t Hws Hin) as (w & Hw & Hwt).
  destruct (Forall2_In_l _ _ _ w Hass Hw) as (acts & _ & Hacts).
  rewrite (proj1 (wrapTransaction_inr t w Hwt)) in Hacts.
  destruct (wrapActions_inr _ _ _ _ Hacts) as (_ & _ & Hall).
  destruct (Hall wire Hwire) as (k & a & Hdec).
  rewrite Hbad in Hdec. discriminate.
Qed.

End Assembling.

Section AssemblingSucceeds.

Import Near Assembler.
Context {Receipt RpcError : Type}.
Variable api : Rpc.Api Receipt RpcError.
Variable block : Rpc.BlockResult.

(** A wire action that decodes, whatever its position and transaction. *)
Abbreviation decodable wire :=
  (forall (i : nat) (tx : NearTransaction),
     exists a, wrapAction wire i tx = inr a).

Lemma wrapActions_total (acts : list wire_action) :
  (forall wire, In wire acts -> decodable wire) ->
  forall i tx, exists ws, wrapActions acts i tx = inr ws.
Proof.
  induction acts as [|wire acts IH]; intros Hall i tx; cbn; [eauto|].
  destruct (Hall wire (or_introl eq_refl) i tx) as [a ->].
  destruct (IH (fun w Hw => Hall w (or_intror Hw)) (S i) tx) as [ws ->].
  eauto.
Qed.

Lemma wrapChunkTransactions_total (txs : list Rpc.Tx.t) :
  (forall t, In t txs ->
     (exists o,
        Rpc.txStatusReceipts api (Rpc.Tx.hash t) (Rpc.Tx.signer_id t) = inr o)
     /\ forall wire, In wire (Rpc.Tx.actions t) -> decodable wire) ->
  forall nb : NearBlock Receipt,
    exists nb', wrapChunkTransactions api block txs nb = inr nb'.
Proof.
  induction txs as [|t txs IH]; intros Hall nb; cbn; [eauto|].
  destruct (Hall t (or_introl eq_refl)) as [[o Ho] Hdec].
  unfold wrapTransaction. rewrite Ho.
  match goal with
  | |- context [wrapActions ?acts 0 ?w] =>
      destruct (wrapActions_total acts Hdec 0%nat w) as [ws ->]
  end.
  apply IH. intros t' Ht'. apply Hall. now right.
Qed.

(** X24.  [wrapBlock] returns a block whenever every chunk of the block result
    can be fetched, the status of every transaction of those chunks can be
    fetched, and every action of those transactions decodes. *)
Theorem wrapBlock_succeeds :
  (forall chunk_hash,
     In chunk_hash (Rpc.chunks block) ->
     exists cr,
       Rpc.chunk api chunk_hash = inr cr
       /\ forall t,
            In t (Rpc.chunk_transactions cr) ->
            (exists o,
               Rpc.txStatusReceipts api (Rpc.Tx.hash t) (Rpc.Tx.signer_id t)
               = inr o)
            /\ forall wire, In wire (Rpc.Tx.actions t) -> decodable wire) ->
  exists nb, wrapBlock api block = inr nb.
Proof.
  unfold wrapBlock. generalize (mkNearBlock (Rpc.author block)
    (Rpc.header block) (Rpc.chunks block) [] [] (@nil Receipt)).
  induction (Rpc.chunks block) as [|h hashes IH]; intros nb Hall; cbn;
    [eauto|].
  destruct (Hall h (or_introl eq_refl)) as (cr & -> & Htxs).
  destruct (wrapChunkTransactions_total _ Htxs nb) as [nb1 ->].
  apply IH. intros h' Hh'. apply Hall. now right.
Qed.

End AssemblingSucceeds.

Section AssemblingExamples.

Import Near.

(** A block of one chunk holding one transaction of two actions, and the
    same block with an action of an unknown type. *)
Lemma wrapBlock_succeeds_witness :
  let header := Rpc.Header.mk 42 "block-42" "block-41" 1700000000 "100" in
  let t :=
    Rpc.Tx.mk "tx-1" "alice.near" "bob.near"
      [WString "CreateAccount"; WRecord [("Transfer", JObj [])]] in
  let api : Rpc.Api unit string :=
    Rpc.mkApi (fun _ => inr (Rpc.mkChunkResult [t] [tt]))
              (fun _ _ => inr (Rpc.mkTxOutcome "tx-1" 7 ["log"])) in
  exists nb, Assembler.wrapBlock api (Rpc.mkBlockResult "carol.near" header ["chunk-1"])
             = inr nb.
Proof.
  intros header t api. apply wrapBlock_succeeds.
  intros h [<-|[]]. eexists. split; [reflexivity|].
  intros t' [<-|[]]. split; [eexists; reflexivity|].
  intros wire [<-|[<-|[]]] i tx; eexists; reflexivity.
Defined.

Lemma wrapBlock_transactions_in_chunk_order_witness :
  let header := Rpc.Header.mk 42 "block-42" "block-41" 1700000000 "100" in
  let t :=
    Rpc.Tx.mk "tx-1" "alice.near" "bob.near"
      [WString "CreateAccount"; WRecord [("Transfer", JObj [])]] in
  let api : Rpc.Api unit string :=
    Rpc.mkApi (fun _ => inr (Rpc.mkChunkResult [t] [tt]))
              (fun _ _ => inr (Rpc.mkTxOutcome "tx-1" 7 ["log"])) in
  exists nb,
    Assembler.wrapBlock api
      (Rpc.mkBlockResult "carol.near" header ["chunk-1"]) = inr nb
    /\ Assembler.author nb = "carol.near"
    /\ forall tx, In tx (Assembler.transactions nb) ->
                  Assembler.block_height tx = 42.
Proof.
  intros header t api.
  destruct (Assembler.wrapBlock api
              (Rpc.mkBlockResult "carol.near" header ["chunk-1"]))
    as [e|nb] eqn:E; [vm_compute in E; discriminate|].
  destruct (wrapBlock_transactions_in_chunk_order api _ nb E)
    as (Hau & _ & _ & _ & Hst).
  exists nb. split; [reflexivity|]. split; [exact Hau|].
  intros tx Htx. exact (proj1 (proj2 (Hst tx Htx))).
Defined.

Lemma wrapBlock_actions_by_position_witness :
  let header := Rpc.Header.mk 42 "block-42" "block-41" 1700000000 "100" in
  let t :=
    Rpc.Tx.mk "tx-1" "alice.near" "bob.near"
      [WString "CreateAccount"; WRecord [("Transfer", JObj [])]] in
  let api : Rpc.Api unit string :=
    Rpc.mkApi (fun _ => inr (Rpc.mkChunkResult [t] [tt]))
              (fun _ _ => inr (Rpc.mkTxOutcome "tx-1" 7 ["log"])) in
  exists nb,
    Assembler.wrapBlock api
      (Rpc.mkBlockResult "carol.near" header ["chunk-1"]) = inr nb
    /\ forall a, In a (Assembler.actions nb) ->
                 In (Near.transaction a) (Assembler.transactions nb).
Proof.
  intros header t api.
  destruct (Assembler.wrapBlock api
              (Rpc.mkBlockResult "carol.near" header ["chunk-1"]))
    as [e|nb] eqn:E; [vm_compute in E; discriminate|].
  destruct (wrapBlock_actions_by_position api _ nb E) as [_ Hin].
  exists nb. split; [reflexivity|].
  intros a Ha. exact (proj1 (Hin a Ha)).
Defined.

Lemma wrapBlock_rejects_invalid_action_witness :
  let header := Rpc.Header.mk 42 "block-42" "block-41" 1700000000 "100" in
  let t :=
    Rpc.Tx.mk "tx-1" "alice.near" "bob.near"
      [WString "CreateAccount"; WRecord [("Mint", JNull)]] in
  let api : Rpc.Api unit string :=
    Rpc.mkApi (fun _ => inr (Rpc.mkChunkResult [t] [tt]))
              (fun _ _ => inr (Rpc.mkTxOutcome "tx-1" 7 ["log"])) in
  exists e,
    Assembler.wrapBlock api
      (Rpc.mkBlockResult "carol.near" header ["chunk-1"]) = inl e.
Proof.
  intros header t api.
  destruct (Assembler.wrapBlock api
              (Rpc.mkBlockResult "carol.near" header ["chunk-1"]))
    as [e|nb] eqn:E; [exists e; reflexivity|].
  exfalso.
  apply (wrapBlock_rejects_invalid_action api
           (Rpc.mkBlockResult "carol.near" header ["chunk-1"])
           "chunk-1" (Rpc.mkChunkResult [t] [tt]) t
           (WRecord [("Mint", JNull)])) with (nb := nb).
  - simpl. tauto.
  - reflexivity.
  - simpl. tauto.
  - simpl. tauto.
  - intros i tx. reflexivity.
  - exact E.
Defined.

End AssemblingExamples.

(** * Modulo-only passes *)

Section ModuloOnlyPass.

Import Fetch.

Variable nodeConfig : NodeConfig.
Variable project : SubqueryProject.
Variable dictionaryService : DictionaryService.
Variable apiGenesisHash : string.
Variable initBlockHeight : Z.

Lemma getEnqueuedModuloBlocks_members (start h : Z) :
  In h (getEnqueuedModuloBlocks nodeConfig project start) ->
  start <= h /\ exists m, In m (getModulos project) /\ Z.rem h m = 0.
Proof.
  unfold getEnqueuedModuloBlocks.
  destruct (Math_max (getModulos project)); try (intros []).
  intros Hh. apply slice0_In, getModuloBlocks_In in Hh.
  destruct Hh as [Hr Hm]. split; [lia | exact Hm].
Qed.

(** X25.  Without a dictionary, a pass over a project whose handlers are all
    modulo block handlers enqueues only heights at or after the start
    height that one of the collected modulos divides, none of them on the
    bypass list. *)
Theorem scan_modulo_only_multiples (fs : FetchService)
  (before : BlockDispatcher) (reply : dictionary_reply)
  (after : BlockDispatcher) (heights : list Z) :
  truthy_string (network_dictionary project) = false ->
  negb (Nat.eqb (length (all_handlers project)) 0)
    && Nat.eqb (length (getModulos project))
               (length (all_handlers project)) = true ->
  enqueued
    (fst (fst (scan nodeConfig project dictionaryService apiGenesisHash
                 initBlockHeight fs before reply after))) = Some heights ->
  forall h,
    In h heights ->
    getStartBlockHeight initBlockHeight before <= h
    /\ (exists m, In m (getModulos project) /\ Z.rem h m = 0)
    /\ ~ In h (bypassBlocks fs).
Proof.
  intros Hdict Hmod. unfold scan.
  destruct (_ || _); [discriminate|].
  unfold useDictionary. rewrite Hdict. cbn [andb].
  unfold enqueue_without_dictionary. rewrite Hmod.
  match goal with
  | |- context [filteredBlockBatch fs ?raw] =>
      pose proof (filteredBlockBatch_In fs raw) as Hin;
      destruct (filteredBlockBatch fs raw) as [[c fs'] l]
  end.
  cbn in *. intros [= <-] h Hh. apply Hin in Hh as [Hraw Hn].
  apply getEnqueuedModuloBlocks_members in Hraw as [Hs Hm]. auto.
Qed.

End ModuloOnlyPass.

Lemma scan_modulo_only_multiples_witness :
  1000 <= 1200
  /\ (exists m, In m (Fetch.getModulos Fetch.every_hundredth)
                /\ Z.rem 1200 m = 0)
  /\ ~ In 1200 [].
Proof.
  apply (scan_modulo_only_multiples (Fetch.mkConfig 6 false)
           Fetch.every_hundredth
           (Fetch.mkDictionaryService None (fun _ => 0%nat)) "genesis-A"
           1000 Fetch.head_at_1500 (Fetch.mkDispatcher None 6)
           Fetch.QueryThrows (Fetch.mkDispatcher None 6)
           [1000; 1100; 1200; 1300; 1400; 1500]).
  - reflexivity.
  - reflexivity.
  - vm_compute. reflexivity.
  - simpl. tauto.
Defined.

Lemma scan_enqueued_avoids_bypass_witness :
  In 1003 [1000; 1001; 1003; 1004] /\ ~ In 1003 [1002].
Proof.
  split; [simpl; tauto|].
  apply (scan_enqueued_avoids_bypass (Fetch.mkConfig 10 false)
           (Fetch.mkProject None
              [mkDs Runtime (Some 1000)
                 [mkHandler (Base Transaction)
                    (Some (TransactionFilter (Some "alice.near") None))]])
           (Fetch.mkDictionaryService None (fun _ => 0%nat)) "genesis-A"
           1000
           (Fetch.mkFetchService None (Some 1004) false 1 [] true [1002])
           (Fetch.mkDispatcher None 10)
           Fetch.QueryThrows (Fetch.mkDispatcher None 10)
           [1000; 1001; 1003; 1004]).
  - vm_compute. reflexivity.
  - simpl. tauto.
Defined.

(** * The batch a pass advertises *)

Section Advertised.

Import Fetch.

Variable nodeConfig : NodeConfig.
Variable project : SubqueryProject.
Variable dictionaryService : DictionaryService.
Variable apiGenesisHash : string.
Variable initBlockHeight : Z.






End Advertised.


(** The scaled batch size is [Math.round] of the double product: with the
    scale 0.7 the batch sizes 45 and 15 give 31 and 11, where the real
    products 31.5 and 10.5 would both round up, and a range pass from
    height 1000 stops at 1030. *)
Example scaledBatchSize_rounds_double_product :
  let fs := Fetch.mkFetchService None (Some 20000) false (7 # 10) [] true [] in
  let project :=
    Fetch.mkProject None
      [mkDs Runtime (Some 1000)
         [mkHandler (Base Transaction)
            (Some (TransactionFilter (Some "alice.near") None))]] in
  Fetch.scaledBatchSize (Fetch.mkConfig 45 false) fs = 31
  /\ Fetch.scaledBatchSize (Fetch.mkConfig 15 false) fs = 11
  /\ fst (fst (Fetch.scan (Fetch.mkConfig 45 false) project
                 (Fetch.mkDictionaryService None (fun _ => 0%nat))
                 "genesis-A" 1000 fs (Fetch.mkDispatcher None 45)
                 Fetch.QueryThrows (Fetch.mkDispatcher None 45)))
     = Fetch.Enqueue (Fetch.lodash_range 1000 1031) (Num 1030).
Proof.
  intros fs project. repeat split; vm_compute; reflexivity.
Qed.
